(** * publish_datasource.py: a shallow embedding of the sample script

    The script [samples/publish_datasource.py] parses its command line with
    the standard [argparse] parser, checks that the connection user name and
    password come together, prompts for the account password, configures
    logging, signs in to the server and, inside the [with] block of the
    session, publishes one datasource and prints the identifier it got back.

    The embedding keeps that order.  The parser declared in lines 25-36 is
    data ([parser]); [parse_args] interprets it the way the standard parser
    does; everything the script does to the outside (prompt, logging
    configuration, requests to the server, printing) is an [Event] appended
    to the state of a small state-and-exception monad, and what the outside
    answers is read from a [World]. *)

From Stdlib Require Import String Ascii List ZArith Bool Lia Sorted.
Import ListNotations.
Local Open Scope string_scope.
Local Open Scope list_scope.

(** ** Python strings *)

Module Py.

(** [s.startswith(p)]. *)
Definition startswith (s p : string) : bool := String.prefix p s.

(** [needle in hay] for strings. *)
Fixpoint contains (needle hay : string) : bool :=
  String.prefix needle hay ||
  match hay with
  | EmptyString => false
  | String _ rest => contains needle rest
  end.

(** [s.split(sep, 1)] when [sep in s]: the text before the first [sep] and
    the text after it; [None] when [sep] does not occur. *)
Fixpoint split1 (sep : ascii) (s : string) : option (string * string) :=
  match s with
  | EmptyString => None
  | String c rest =>
      if Ascii.eqb c sep then Some (EmptyString, rest)
      else match split1 sep rest with
           | Some (l, r) => Some (String c l, r)
           | None => None
           end
  end.

Definition is_lower (c : ascii) : bool :=
  let n := nat_of_ascii c in (97 <=? n)%nat && (n <=? 122)%nat.

Definition upper_char (c : ascii) : ascii :=
  if is_lower c then ascii_of_nat (nat_of_ascii c - 32) else c.

(** [s.upper()] on the ASCII letters. *)
Fixpoint upper (s : string) : string :=
  match s with
  | EmptyString => EmptyString
  | String c rest => String (upper_char c) (upper rest)
  end.

Definition is_digit (c : ascii) : bool :=
  let n := nat_of_ascii c in (48 <=? n)%nat && (n <=? 57)%nat.

Fixpoint all_digits (s : string) : bool :=
  match s with
  | EmptyString => true
  | String c rest => is_digit c && all_digits rest
  end.

(** Truth value of an attribute that is [None] or a string: [None] and the
    empty string are false. *)
Definition truthy (v : option string) : bool :=
  match v with
  | None => false
  | Some s => negb (s =? "")
  end.

(** [x in xs] for a list of strings. *)
Definition mem (x : string) (xs : list string) : bool :=
  existsb (String.eqb x) xs.

End Py.

(** ** The standard command-line parser, as far as the script uses it

    [argparse] belongs to the Python distribution, not to the repository.
    The model follows its documented algorithm for a parser that has only
    optional arguments, the prefix character [-] and abbreviations allowed
    (the defaults the script leaves in place): every argument string is
    first classified as an option or as a plain argument, then the option
    strings are consumed from left to right.  Only the three actions the
    script declares are modelled: [store] (one argument), [store_true] and
    the [help] action that every parser gets.  Usage and help texts are not
    reproduced: an error carries the structured reason instead of the
    formatted message.  An explicit argument ([--opt=value], [-ovalue]) is
    stored as it is written.  The interpreter releases differ on one such
    argument: Python 3.11 drops an attached argument that reads [--]
    ([--opt=--], [-o--]) and stores an empty list without checking the
    choices, where the model keeps and checks the string; a statement that
    depends on it is kept to the command lines without such an argument
    ([no_attached_dash] below).  Digits are the ASCII digits. *)

Module Argparse.

Inductive Action := store | store_true | help.

(** The attributes of the namespace the parser fills ([d_help] stands for
    the help action, which has no attribute). *)
Inductive Dest :=
| d_help | d_server | d_site | d_username | d_filepath | d_logging_level
| d_as_job | d_conn_username | d_conn_password | d_conn_embed | d_conn_oauth.

Definition Dest_eq_dec (a b : Dest) : {a = b} + {a <> b}.
Proof. decide equality. Defined.

Definition Dest_eqb (a b : Dest) : bool :=
  if Dest_eq_dec a b then true else false.

Definition seen_in (d : Dest) (seen : list Dest) : bool :=
  existsb (Dest_eqb d) seen.

(** What [add_argument] records. *)
Record Argument := {
  option_strings : list string;
  dest : Dest;
  action : Action;
  required : bool;
  choices : option (list string);
  default : option string
}.

(** [args = parser.parse_args()]: [None] is Python's [None]. *)
Record Namespace := {
  server : option string;
  site : option string;
  username : option string;
  filepath : option string;
  logging_level : option string;
  as_job : bool;
  conn_username : option string;
  conn_password : option string;
  conn_embed : bool;
  conn_oauth : bool
}.

Definition empty_namespace : Namespace :=
  {| server := None; site := None; username := None; filepath := None;
     logging_level := None; as_job := false; conn_username := None;
     conn_password := None; conn_embed := false; conn_oauth := false |}.

(** [setattr(namespace, dest, value)] for a [store] action. *)
Definition setattr_store (ns : Namespace) (d : Dest) (v : string) : Namespace :=
  match d with
  | d_server =>
      {| server := Some v; site := site ns; username := username ns;
         filepath := filepath ns; logging_level := logging_level ns;
         as_job := as_job ns; conn_username := conn_username ns;
         conn_password := conn_password ns; conn_embed := conn_embed ns;
         conn_oauth := conn_oauth ns |}
  | d_site =>
      {| server := server ns; site := Some v; username := username ns;
         filepath := filepath ns; logging_level := logging_level ns;
         as_job := as_job ns; conn_username := conn_username ns;
         conn_password := conn_password ns; conn_embed := conn_embed ns;
         conn_oauth := conn_oauth ns |}
  | d_username =>
      {| server := server ns; site := site ns; username := Some v;
         filepath := filepath ns; logging_level := logging_level ns;
         as_job := as_job ns; conn_username := conn_username ns;
         conn_password := conn_password ns; conn_embed := conn_embed ns;
         conn_oauth := conn_oauth ns |}
  | d_filepath =>
      {| server := server ns; site := site ns; username := username ns;
         filepath := Some v; logging_level := logging_level ns;
         as_job := as_job ns; conn_username := conn_username ns;
         conn_password := conn_password ns; conn_embed := conn_embed ns;
         conn_oauth := conn_oauth ns |}
  | d_logging_level =>
      {| server := server ns; site := site ns; username := username ns;
         filepath := filepath ns; logging_level := Some v;
         as_job := as_job ns; conn_username := conn_username ns;
         conn_password := conn_password ns; conn_embed := conn_embed ns;
         conn_oauth := conn_oauth ns |}
  | d_conn_username =>
      {| server := server ns; site := site ns; username := username ns;
         filepath := filepath ns; logging_level := logging_level ns;
         as_job := as_job ns; conn_username := Some v;
         conn_password := conn_password ns; conn_embed := conn_embed ns;
         conn_oauth := conn_oauth ns |}
  | d_conn_password =>
      {| server := server ns; site := site ns; username := username ns;
         filepath := filepath ns; logging_level := logging_level ns;
         as_job := as_job ns; conn_username := conn_username ns;
         conn_password := Some v; conn_embed := conn_embed ns;
         conn_oauth := conn_oauth ns |}
  | d_help | d_as_job | d_conn_embed | d_conn_oauth => ns
  end.

(** [setattr(namespace, dest, True)] for a [store_true] action. *)
Definition setattr_true (ns : Namespace) (d : Dest) : Namespace :=
  match d with
  | d_as_job =>
      {| server := server ns; site := site ns; username := username ns;
         filepath := filepath ns; logging_level := logging_level ns;
         as_job := true; conn_username := conn_username ns;
         conn_password := conn_password ns; conn_embed := conn_embed ns;
         conn_oauth := conn_oauth ns |}
  | d_conn_embed =>
      {| server := server ns; site := site ns; username := username ns;
         filepath := filepath ns; logging_level := logging_level ns;
         as_job := as_job ns; conn_username := conn_username ns;
         conn_password := conn_password ns; conn_embed := true;
         conn_oauth := conn_oauth ns |}
  | d_conn_oauth =>
      {| server := server ns; site := site ns; username := username ns;
         filepath := filepath ns; logging_level := logging_level ns;
         as_job := as_job ns; conn_username := conn_username ns;
         conn_password := conn_password ns; conn_embed := conn_embed ns;
         conn_oauth := true |}
  | _ => ns
  end.

(** Why the parser stopped with exit status 2. *)
Inductive UsageMsg :=
| ambiguous_option (option : string) (matches : list string)
| unexpected_option_string (option : string)
| expected_one_argument (a : Argument)
| ignored_explicit_argument (a : Argument) (explicit_arg : string)
| invalid_choice (a : Argument) (value : string)
| arguments_required (names : list (list string))
| unrecognized_arguments (extras : list string)
| message (text : string).

(** How [parse_args] ends: with the namespace, with the help text and
    status 0, or through [parser.error] with status 2. *)
Inductive ParseOutcome (A : Type) :=
| Parsed (a : A)
| HelpExit
| UsageError (m : UsageMsg).
Arguments Parsed {A} a.
Arguments HelpExit {A}.
Arguments UsageError {A} m.

(** An option tuple: the action found ([None]: no such option), the option
    string it was found under and the argument written in the same
    string, if any. *)
Definition OptionTuple : Type := option Argument * string * option string.

Definition is_prefix_char (c : ascii) : bool := Ascii.eqb c "-".

Section Parser.

(** [parser._actions], in the order of the [add_argument] calls. *)
Variable _actions : list Argument.

(** [parser._option_string_actions], in insertion order. *)
Definition _option_string_actions : list (string * Argument) :=
  flat_map (fun a => map (fun s => (s, a)) (option_strings a)) _actions.

Definition find_option (s : string) : option Argument :=
  match find (fun sa => fst sa =? s) _option_string_actions with
  | Some sa => Some (snd sa)
  | None => None
  end.

(** [_get_option_tuples] on the string [c0 c1 rest]. *)
Definition _get_option_tuples (c0 c1 : ascii) (rest : string)
  : UsageMsg + list OptionTuple :=
  let option_string := String c0 (String c1 rest) in
  if is_prefix_char c0 && is_prefix_char c1 then
    let '(option_prefix, explicit_arg) :=
      match Py.split1 "=" option_string with
      | Some (l, r) => (l, Some r)
      | None => (option_string, None)
      end in
    inr (flat_map
           (fun sa => if Py.startswith (fst sa) option_prefix
                      then [(Some (snd sa), fst sa, explicit_arg)] else [])
           _option_string_actions)
  else if is_prefix_char c0 && negb (is_prefix_char c1) then
    let short_option_prefix := String c0 (String c1 EmptyString) in
    let short_explicit_arg := rest in
    inr (flat_map
           (fun sa => if fst sa =? short_option_prefix
                      then [(Some (snd sa), fst sa, Some short_explicit_arg)]
                      else if Py.startswith (fst sa) option_string
                      then [(Some (snd sa), fst sa, None)] else [])
           _option_string_actions)
  else inl (unexpected_option_string option_string).

(** The strings that look like negative numbers,
    [^-\d+$|^-\d*\.\d+$] on ASCII digits ([$] also matches before a
    final newline). *)
Fixpoint drop_digits (s : string) : string :=
  match s with
  | String c rest => if Py.is_digit c then drop_digits rest else s
  | EmptyString => s
  end.

Definition digits1 (s : string) : bool :=
  negb (s =? "") && Py.all_digits s.

Definition number_body (s : string) : bool :=
  digits1 s ||
  match drop_digits s with
  | String "." frac => digits1 frac
  | _ => false
  end.

Fixpoint chomp (s : string) : option string :=
  match s with
  | EmptyString => None
  | String c EmptyString =>
      if Ascii.eqb c "010" then Some EmptyString else None
  | String c rest =>
      match chomp rest with
      | Some r => Some (String c r)
      | None => None
      end
  end.

Definition _negative_number_matcher (s : string) : bool :=
  match s with
  | String "-" body =>
      number_body body ||
      match chomp body with
      | Some b => number_body b
      | None => false
      end
  | _ => false
  end.

Definition _parse_optional (arg_string : string)
  : UsageMsg + option OptionTuple :=
  match arg_string with
  | EmptyString => inr None
  | String c0 tail =>
      if negb (is_prefix_char c0) then inr None
      else
        match find_option arg_string with
        | Some a => inr (Some (Some a, arg_string, None))
        | None =>
            match tail with
            | EmptyString => inr None
            | String c1 rest =>
                let by_equals :=
                  match Py.split1 "=" arg_string with
                  | Some (option_string, explicit_arg) =>
                      match find_option option_string with
                      | Some a => Some (Some a, option_string, Some explicit_arg)
                      | None => None
                      end
                  | None => None
                  end in
                match by_equals with
                | Some t => inr (Some t)
                | None =>
                    match _get_option_tuples c0 c1 rest with
                    | inl m => inl m
                    | inr [] =>
                        if _negative_number_matcher arg_string then inr None
                        else if Py.contains " " arg_string then inr None
                        else inr (Some (None, arg_string, None))
                    | inr [option_tuple] => inr (Some option_tuple)
                    | inr option_tuples =>
                        inl (ambiguous_option arg_string
                               (map (fun t => snd (fst t)) option_tuples))
                    end
                end
            end
        end
  end.


(** One letter of [arg_strings_pattern]: ['A'], ['O'] (with the option
    tuple noted for that index) or ['-'] for the string [--]. *)
Inductive Pattern :=
| pat_A
| pat_O (option_tuple : OptionTuple)
| pat_dash.

(** The first loop of [_parse_known_args]: all strings after [--] are
    arguments; an ambiguous abbreviation ends the run here. *)
Fixpoint arg_strings_pattern (arg_strings : list string)
  : UsageMsg + list Pattern :=
  match arg_strings with
  | [] => inr []
  | arg_string :: rest =>
      if arg_string =? "--" then inr (pat_dash :: map (fun _ => pat_A) rest)
      else
        match _parse_optional arg_string with
        | inl m => inl m
        | inr option_tuple =>
            match arg_strings_pattern rest with
            | inl m => inl m
            | inr pats =>
                inr (match option_tuple with
                     | None => pat_A
                     | Some t => pat_O t
                     end :: pats)
            end
        end
  end.

(** [_match_argument(action, 'A')]: how many arguments the action takes
    ([-] is not allowed for an optional, so the patterns are [(A)] and
    [()]). *)
Definition arg_count (a : Argument) : nat :=
  match action a with
  | store => 1
  | store_true | help => 0
  end.

(** An entry of [action_tuples]. *)
Definition ActionTuple : Type := Argument * list string * string.

(** The [while True] loop of [consume_optional] for an option string
    that carries an explicit argument: single-dash flags are peeled off
    the front of the explicit argument ([-xyz] is [-x -y -z]).  The
    result is the action tuples collected and, when the explicit
    argument was used up by flags, the last action found, which still
    has to take its arguments from the strings that follow. *)
Fixpoint explicit_args (a : Argument) (option_string : string)
    (explicit_arg : string) {struct explicit_arg}
  : UsageMsg + (list ActionTuple * option (Argument * string)) :=
  let single_dash :=
    match option_string with
    | String _ (String c1 _) => negb (is_prefix_char c1)
    | _ => false
    end in
  match explicit_arg with
  | String c new_explicit_arg =>
      if (arg_count a =? 0)%nat && single_dash then
        let char := match option_string with
                    | String c0 _ => c0
                    | EmptyString => "-"%char
                    end in
        let option_string' := String char (String c EmptyString) in
        match find_option option_string' with
        | Some a' =>
            match new_explicit_arg with
            | EmptyString =>
                inr ([(a, [], option_string)], Some (a', option_string'))
            | _ =>
                match explicit_args a' option_string' new_explicit_arg with
                | inl m => inl m
                | inr (tuples, last) =>
                    inr ((a, [], option_string) :: tuples, last)
                end
            end
        | None => inl (ignored_explicit_argument a explicit_arg)
        end
      else if (arg_count a =? 1)%nat then
        inr ([(a, [explicit_arg], option_string)], None)
      else inl (ignored_explicit_argument a explicit_arg)
  | EmptyString =>
      if (arg_count a =? 1)%nat then
        inr ([(a, [explicit_arg], option_string)], None)
      else inl (ignored_explicit_argument a explicit_arg)
  end.

(** [_check_value]. *)
Definition _check_value (a : Argument) (value : string) : bool :=
  match choices a with
  | Some cs => Py.mem value cs
  | None => true
  end.

(** [take_action]: the action is noted as seen and run on its
    arguments. *)
Definition take_action (t : ActionTuple) (st : Namespace * list Dest)
  : ParseOutcome (Namespace * list Dest) :=
  let '(a, argument_strings, _) := t in
  let '(namespace, seen_actions) := st in
  let seen_actions := seen_actions ++ [dest a] in
  match action a with
  | store =>
      match argument_strings with
      | [value] =>
          if _check_value a value
          then Parsed (setattr_store namespace (dest a) value, seen_actions)
          else UsageError (invalid_choice a value)
      | _ => UsageError (expected_one_argument a)
      end
  | store_true => Parsed (setattr_true namespace (dest a), seen_actions)
  | help => HelpExit
  end.

Fixpoint take_actions (ts : list ActionTuple) (st : Namespace * list Dest)
  : ParseOutcome (Namespace * list Dest) :=
  match ts with
  | [] => Parsed st
  | t :: rest =>
      match take_action t st with
      | Parsed st' => take_actions rest st'
      | HelpExit => HelpExit
      | UsageError m => UsageError m
      end
  end.

(** The second loop of [_parse_known_args] over the argument strings
    paired with their pattern letters.  With no positional arguments
    declared, a string that no option consumes goes to [extras]. *)
Fixpoint consume (items : list (string * Pattern))
    (namespace : Namespace) (seen_actions : list Dest) (extras : list string)
  : ParseOutcome (Namespace * list Dest * list string) :=
  match items with
  | [] => Parsed (namespace, seen_actions, extras)
  | (arg_string, pat_A) :: rest
  | (arg_string, pat_dash) :: rest
  | (arg_string, pat_O (None, _, _)) :: rest =>
      consume rest namespace seen_actions (extras ++ [arg_string])
  | (arg_string, pat_O (Some a, option_string, explicit_arg)) :: rest =>
      match
        match explicit_arg with
        | Some e => explicit_args a option_string e
        | None => inr ([], Some (a, option_string))
        end
      with
      | inl m => UsageError m
      | inr (tuples, None) =>
          match take_actions tuples (namespace, seen_actions) with
          | Parsed (namespace', seen') => consume rest namespace' seen' extras
          | HelpExit => HelpExit
          | UsageError m => UsageError m
          end
      | inr (tuples, Some (a', option_string')) =>
          match arg_count a' with
          | O =>
              match take_actions (tuples ++ [(a', [], option_string')])
                      (namespace, seen_actions) with
              | Parsed (namespace', seen') =>
                  consume rest namespace' seen' extras
              | HelpExit => HelpExit
              | UsageError m => UsageError m
              end
          | S _ =>
              match rest with
              | (value, pat_A) :: rest' =>
                  match take_actions (tuples ++ [(a', [value], option_string')])
                          (namespace, seen_actions) with
                  | Parsed (namespace', seen') =>
                      consume rest' namespace' seen' extras
                  | HelpExit => HelpExit
                  | UsageError m => UsageError m
                  end
              | _ => UsageError (expected_one_argument a')
              end
          end
      end
  end.

(** The namespace [parse_known_args] starts from: every attribute at the
    default of its action. *)
Definition initial_namespace : Namespace :=
  fold_left
    (fun ns a => match default a with
                 | Some v => setattr_store ns (dest a) v
                 | None => ns
                 end)
    _actions empty_namespace.

Definition required_actions (seen_actions : list Dest) : list (list string) :=
  map option_strings
    (filter (fun a => negb (seen_in (dest a) seen_actions) && required a)
       _actions).

(** [_parse_known_args]: the namespace, the actions seen and the strings
    left over. *)
Definition _parse_known_args (arg_strings : list string)
  : ParseOutcome (Namespace * list Dest * list string) :=
  match arg_strings_pattern arg_strings with
  | inl m => UsageError m
  | inr pats =>
      match consume (combine arg_strings pats) initial_namespace [] [] with
      | Parsed (namespace, seen_actions, extras) =>
          match required_actions seen_actions with
          | [] => Parsed (namespace, seen_actions, extras)
          | names => UsageError (arguments_required names)
          end
      | HelpExit => HelpExit
      | UsageError m => UsageError m
      end
  end.

(** [parser.parse_args()] on [sys.argv[1:]]. *)
Definition parse_args (argv : list string) : ParseOutcome Namespace :=
  match _parse_known_args argv with
  | Parsed (namespace, _, extras) =>
      match extras with
      | [] => Parsed namespace
      | _ => UsageError (unrecognized_arguments extras)
      end
  | HelpExit => HelpExit
  | UsageError m => UsageError m
  end.

(** The actions met while parsing, [seen_actions]; empty when the parser
    stopped before the end. *)
Definition seen_actions (argv : list string) : list Dest :=
  match _parse_known_args argv with
  | Parsed (_, seen, _) => seen
  | _ => []
  end.

End Parser.

End Argparse.

(** ** The logging module: the level constants [getattr] can find *)

Module Logging.

Definition CRITICAL : Z := 50.
Definition ERROR : Z := 40.
Definition WARNING : Z := 30.
Definition INFO : Z := 20.
Definition DEBUG : Z := 10.
Definition NOTSET : Z := 0.

(** [getattr(logging, name)] for the names of levels; [None] stands for
    the [AttributeError] of a name the module does not define. *)
Definition getattr (name : string) : option Z :=
  if name =? "CRITICAL" then Some CRITICAL
  else if name =? "FATAL" then Some CRITICAL
  else if name =? "ERROR" then Some ERROR
  else if name =? "WARNING" then Some WARNING
  else if name =? "WARN" then Some WARNING
  else if name =? "INFO" then Some INFO
  else if name =? "DEBUG" then Some DEBUG
  else if name =? "NOTSET" then Some NOTSET
  else None.

End Logging.

(** ** The client library, as far as the script calls it *)

Module TSC.

(** Modelled from the spec: the Credentials record of the client library
    ([TSC.TableauAuth], not among the sources): "username, secret,
    optional site name - used only for session establishment". *)
Record TableauAuth := {
  username : option string;
  password : string;
  site : option string
}.

(** Modelled from the spec: the server handle of the client library
    ([TSC.Server(address, use_server_version=True)], not among the
    sources): the "server base address" the session is opened against. *)
Record Server := {
  server_address : option string;
  use_server_version : bool
}.

(** Modelled from the spec: the "target resource placeholder" of the
    publish request ([TSC.DatasourceItem], not among the sources), whose
    empty project reference means "use default project". *)
Record DatasourceItem := { project_id : string }.

(** Modelled from the spec: the "optional embedded connection credentials
    (connection username, connection secret, embed flag, oauth flag)"
    ([TSC.ConnectionCredentials], not among the sources). *)
Record ConnectionCredentials := {
  name : option string;
  conn_password : option string;
  embed : bool;
  oauth : bool
}.

(** The publish modes the script's comment lists:
    "Overwrite, Append, or CreateNew". *)
Inductive PublishMode := Append | Overwrite | CreateNew.

(** Modelled from the spec: the PublishRequest handed to the publish
    operation of the client library ([server.datasources.publish], not
    among the sources): "target resource placeholder, file path, publish
    mode, optional embedded connection credentials, and an
    asynchronous-mode flag". *)
Record PublishRequest := {
  datasource_item : DatasourceItem;
  file_path : option string;
  mode : PublishMode;
  connection_credentials : option ConnectionCredentials;
  as_job : bool
}.

End TSC.

(** ** Effects: events, state, exceptions and what the outside answers *)

(** An exception raised by a library call. *)
Record Exn := { exn_type : string; exn_text : string }.

(** What the script does to the outside, in the order it does it. *)
Inductive Event :=
| EvUsage (m : Argparse.UsageMsg)          (* usage and error text on stderr *)
| EvHelp                                   (* help text on stdout *)
| EvGetpass (prompt : string)              (* masked prompt on the terminal *)
| EvBasicConfig (level : Z)                (* logging.basicConfig(level=...) *)
| EvServer (s : TSC.Server)                (* handle created, version asked *)
| EvSignIn (s : TSC.Server) (auth : TSC.TableauAuth)
| EvPublish (r : TSC.PublishRequest)
| EvSignOut
| EvPrint (line : string).                 (* print(...) on stdout *)

Record State := {
  trace : list Event;
  signed_in : bool;
  root_level : Z
}.

(** The process starts signed out, with the root logger at WARNING. *)
Definition start : State :=
  {| trace := []; signed_in := false; root_level := Logging.WARNING |}.

Inductive Result (A : Type) :=
| Ok (a : A)
| SystemExit (status : Z)
| Raise (e : Exn).
Arguments Ok {A} a.
Arguments SystemExit {A} status.
Arguments Raise {A} e.

Definition M (A : Type) : Type := State -> Result A * State.

Definition ret {A} (a : A) : M A := fun s => (Ok a, s).

Definition bind {A B} (c : M A) (k : A -> M B) : M B :=
  fun s =>
    match c s with
    | (Ok a, s') => k a s'
    | (SystemExit n, s') => (SystemExit n, s')
    | (Raise e, s') => (Raise e, s')
    end.

Notation "x <- c ;; k" := (bind c (fun x => k))
  (at level 61, c at next level, right associativity).
Notation "c ;; k" := (bind c (fun _ => k))
  (at level 61, right associativity).

Definition emit (ev : Event) : M unit :=
  fun s => (Ok tt, {| trace := trace s ++ [ev]; signed_in := signed_in s;
                      root_level := root_level s |}).

Definition raise {A} (e : Exn) : M A := fun s => (Raise e, s).

Definition sys_exit {A} (status : Z) : M A := fun s => (SystemExit status, s).

(** [with EXPR: BODY]: the context manager is obtained first (an exception
    there leaves the statement at once); once it is entered, its exit
    method runs however the body ends, and the way the body ended is what
    the statement passes on. *)
Definition with_ {A B} (expr : M A) (exit_ : A -> M unit) (body : A -> M B)
  : M B :=
  fun s =>
    match expr s with
    | (Ok mgr, s1) =>
        let '(r, s2) := body mgr s1 in
        match exit_ mgr s2 with
        | (Ok _, s3) => (r, s3)
        | (SystemExit n, s3) => (SystemExit n, s3)
        | (Raise e, s3) => (Raise e, s3)
        end
    | (SystemExit n, s1) => (SystemExit n, s1)
    | (Raise e, s1) => (Raise e, s1)
    end.

(** The exit status of the interpreter: 0 after a normal return, the
    status of [SystemExit], 1 after an exception nobody caught. *)
Definition exit_status {A} (r : Result A) : Z :=
  match r with
  | Ok _ => 0
  | SystemExit n => n
  | Raise _ => 1
  end.

(** What the outside answers: the password typed at the prompt (or the
    exception of a closed terminal), and the replies of the server to the
    requests of the client library. *)
Record World := {
  getpass_reply : Exn + string;
  server_reply : TSC.Server -> option Exn;
  sign_in_reply : TSC.Server -> TSC.TableauAuth -> option Exn;
  publish_reply : TSC.PublishRequest -> Exn + string
}.

(** ** The script *)

(** Lines 25-36: the parser.  [ArgumentParser] adds the help option
    itself; every [add_argument] call gives one entry. *)
Definition add_argument (option_strings : list string) (dest : Argparse.Dest)
    (action : Argparse.Action) (required : bool)
    (choices : option (list string)) (default : option string)
  : Argparse.Argument :=
  {| Argparse.option_strings := option_strings; Argparse.dest := dest;
     Argparse.action := action; Argparse.required := required;
     Argparse.choices := choices; Argparse.default := default |}.

Definition parser : list Argparse.Argument :=
  [ add_argument ["-h"; "--help"] Argparse.d_help Argparse.help false None None;
    add_argument ["--server"; "-s"] Argparse.d_server Argparse.store true None None;
    add_argument ["--site"; "-i"] Argparse.d_site Argparse.store false None None;
    add_argument ["--username"; "-u"] Argparse.d_username Argparse.store true None None;
    add_argument ["--filepath"; "-f"] Argparse.d_filepath Argparse.store true None None;
    add_argument ["--logging-level"; "-l"] Argparse.d_logging_level Argparse.store
      false (Some ["debug"; "info"; "error"]) (Some "error");
    add_argument ["--as-job"; "-a"] Argparse.d_as_job Argparse.store_true false None None;
    add_argument ["--conn-username"] Argparse.d_conn_username Argparse.store false None None;
    add_argument ["--conn-password"] Argparse.d_conn_password Argparse.store false None None;
    add_argument ["--conn-embed"] Argparse.d_conn_embed Argparse.store_true false None None;
    add_argument ["--conn-oauth"] Argparse.d_conn_oauth Argparse.store_true false None None ].

(** [parser.error(message)]: usage and message on stderr, exit status 2. *)
Definition parser_error {A} (m : Argparse.UsageMsg) : M A :=
  emit (EvUsage m) ;; sys_exit 2.

(** [parser.parse_args()]. *)
Definition parse_args (argv : list string) : M Argparse.Namespace :=
  match Argparse.parse_args parser argv with
  | Argparse.Parsed args => ret args
  | Argparse.HelpExit => emit EvHelp ;; sys_exit 0
  | Argparse.UsageError m => parser_error m
  end.

(** [getpass.getpass(prompt)]. *)
Definition getpass (w : World) (prompt : string) : M string :=
  emit (EvGetpass prompt) ;;
  match getpass_reply w with
  | inr typed => ret typed
  | inl e => raise e
  end.

(** [getattr(logging, name)]. *)
Definition logging_getattr (name : string) : M Z :=
  match Logging.getattr name with
  | Some level => ret level
  | None => raise {| exn_type := "AttributeError"; exn_text := name |}
  end.

(** [s.upper()] on an attribute that may be [None]. *)
Definition upper (v : option string) : M string :=
  match v with
  | Some s => ret (Py.upper s)
  | None => raise {| exn_type := "AttributeError"; exn_text := "upper" |}
  end.

(** [logging.basicConfig(level=...)]. *)
Definition basicConfig (level : Z) : M unit :=
  fun s => (Ok tt, {| trace := trace s ++ [EvBasicConfig level];
                      signed_in := signed_in s; root_level := level |}).

(** [TSC.Server(address, use_server_version=True)]. *)
Definition Server (w : World) (address : option string) (use_server_version : bool)
  : M TSC.Server :=
  let srv := {| TSC.server_address := address;
                TSC.use_server_version := use_server_version |} in
  emit (EvServer srv) ;;
  match server_reply w srv with
  | None => ret srv
  | Some e => raise e
  end.

(** Modelled from the spec: the session wrapper of the client library
    ([server.auth.sign_in] and the context manager it returns, not among the
    sources): it "establishes an authenticated session scoped to the
    enclosing operation"; an "authentication failure propagates as an
    unrecovered error". *)
Definition sign_in (w : World) (srv : TSC.Server) (auth : TSC.TableauAuth)
  : M unit :=
  emit (EvSignIn srv auth) ;;
  match sign_in_reply w srv auth with
  | None =>
      fun s => (Ok tt, {| trace := trace s; signed_in := true;
                          root_level := root_level s |})
  | Some e => raise e
  end.

(** Modelled from the spec: the release of the session wrapper (the exit
    method of the context manager, which signs out; not among the sources):
    the session is "released (signed out) when the enclosing scope
    exits". *)
Definition sign_out : M unit :=
  fun s => (Ok tt, {| trace := trace s ++ [EvSignOut]; signed_in := false;
                      root_level := root_level s |}).

(** Modelled from the spec: the publish operation of the client library
    ([server.datasources.publish], not among the sources): the synchronous
    variant "returns resource identifier", the asynchronous one "returns
    immediately with a job identifier"; a "publish failure propagates as an
    unrecovered error".  The result is the [id] of the item returned. *)
Definition publish (w : World) (item : TSC.DatasourceItem)
    (file_path : option string) (mode : TSC.PublishMode)
    (connection_credentials : option TSC.ConnectionCredentials) (as_job : bool)
  : M string :=
  let r := {| TSC.datasource_item := item; TSC.file_path := file_path;
              TSC.mode := mode;
              TSC.connection_credentials := connection_credentials;
              TSC.as_job := as_job |} in
  emit (EvPublish r) ;;
  match publish_reply w r with
  | inr id => ret id
  | inl e => raise e
  end.

(** [print(line)]. *)
Definition print (line : string) : M unit := emit (EvPrint line).

(** Lines 41-42: the condition of the consistency check. *)
Definition conn_mismatch (args : Argparse.Namespace) : bool :=
  (Py.truthy (Argparse.conn_username args) && negb (Py.truthy (Argparse.conn_password args)))
  || (negb (Py.truthy (Argparse.conn_username args)) && Py.truthy (Argparse.conn_password args)).

(** Lines 59-62: the connection credentials, if connection details are
    provided. *)
Definition new_conn_creds (args : Argparse.Namespace)
  : option TSC.ConnectionCredentials :=
  if Py.truthy (Argparse.conn_username args) then
    Some {| TSC.name := Argparse.conn_username args;
            TSC.conn_password := Argparse.conn_password args;
            TSC.embed := Argparse.conn_embed args;
            TSC.oauth := Argparse.conn_oauth args |}
  else None.

(** Lines 53-77: the body of the [with] statement.  The second call leaves
    [as_job] at its default, [False]. *)
Definition publish_datasource (w : World) (args : Argparse.Namespace) : M unit :=
  let new_datasource := {| TSC.project_id := "" |} in
  let new_conn_creds := new_conn_creds args in
  let publish_mode := TSC.Overwrite in
  if Argparse.as_job args then
    new_job_id <- publish w new_datasource (Argparse.filepath args) publish_mode
                    new_conn_creds true ;;
    print ("Datasource published asynchronously. Job ID: " ++ new_job_id)
  else
    new_datasource_id <- publish w new_datasource (Argparse.filepath args)
                           publish_mode new_conn_creds false ;;
    print ("Datasource published. Datasource ID: " ++ new_datasource_id).

(** Lines 44-77: the script once the arguments passed the consistency
    check. *)
Definition checked (w : World) (args : Argparse.Namespace) : M unit :=
  password <- getpass w "Password: " ;;
  name <- upper (Argparse.logging_level args) ;;
  logging_level <- logging_getattr name ;;
  basicConfig logging_level ;;
  let tableau_auth := {| TSC.username := Argparse.username args;
                         TSC.password := password;
                         TSC.site := Argparse.site args |} in
  server <- Server w (Argparse.server args) true ;;
  with_ (sign_in w server tableau_auth) (fun _ => sign_out)
        (fun _ => publish_datasource w args).

(** Lines 41-77: the script once the arguments are parsed. *)
Definition run (w : World) (args : Argparse.Namespace) : M unit :=
  (if conn_mismatch args
   then parser_error
          (Argparse.message "Both the connection username and password must be provided")
   else ret tt) ;;
  checked w args.

(** [main()], run on the command line [argv] (without the program name)
    in the world [w], from the start state. *)
Definition main (argv : list string) (w : World) : Result unit * State :=
  (args <- parse_args argv ;; run w args) start.

(** The lines the script printed. *)
Definition printed (s : State) : list string :=
  flat_map (fun ev => match ev with EvPrint line => [line] | _ => [] end)
    (trace s).

(** ** Notions the statements use *)

(** An option was supplied on the command line: its action is among the
    actions the parser met ([seen_actions], which the parser itself uses to
    tell which required arguments are missing). *)
Definition supplied (d : Argparse.Dest) (argv : list string) : bool :=
  Argparse.seen_in d (Argparse.seen_actions parser argv).

(** The events that go over the network. *)
Definition is_network (ev : Event) : bool :=
  match ev with
  | EvServer _ | EvSignIn _ _ | EvPublish _ | EvSignOut => true
  | _ => false
  end.

Definition is_getpass (ev : Event) : bool :=
  match ev with EvGetpass _ => true | _ => false end.

Definition is_publish (ev : Event) : bool :=
  match ev with EvPublish _ => true | _ => false end.

Definition is_sign_in (ev : Event) : bool :=
  match ev with EvSignIn _ _ => true | _ => false end.

Definition is_print (ev : Event) : bool :=
  match ev with EvPrint _ => true | _ => false end.

(** The message of the usage error the script raises itself. *)
Definition both_required : Argparse.UsageMsg :=
  Argparse.message "Both the connection username and password must be provided".

(** The state of a run that stopped with a usage error: only the error
    text was written. *)
Definition usage_state (m : Argparse.UsageMsg) : State :=
  {| trace := [EvUsage m]; signed_in := false; root_level := Logging.WARNING |}.

(** The session discipline, checked along a trace: a sign-in request the
    world grants opens the session, a sign-out closes it, a publish request
    needs the session open, and at the end the session is closed. *)
Fixpoint scoped_from (w : World) (open : bool) (tr : list Event) : bool :=
  match tr with
  | [] => negb open
  | EvSignIn srv auth :: rest =>
      negb open &&
      scoped_from w (match sign_in_reply w srv auth with
                     | None => true
                     | Some _ => false
                     end) rest
  | EvSignOut :: rest => open && scoped_from w false rest
  | EvPublish _ :: rest => open && scoped_from w open rest
  | _ :: rest => scoped_from w open rest
  end.

Definition scoped (w : World) (tr : list Event) : bool := scoped_from w false tr.

(** A request of the script that the world answers with the exception
    [e]. *)
Definition answered_with (w : World) (ev : Event) (e : Exn) : Prop :=
  match ev with
  | EvGetpass _ => getpass_reply w = inl e
  | EvServer srv => server_reply w srv = Some e
  | EvSignIn srv auth => sign_in_reply w srv auth = Some e
  | EvPublish r => publish_reply w r = inl e
  | _ => False
  end.


(** The publish requests of a trace. *)
Definition publish_requests (tr : list Event) : list TSC.PublishRequest :=
  flat_map (fun ev => match ev with EvPublish r => [r] | _ => [] end) tr.

(** The identifiers the world returned to the publish requests of a
    trace. *)
Definition published_ids (w : World) (tr : list Event) : list string :=
  flat_map (fun r => match publish_reply w r with
                     | inr id => [id]
                     | inl _ => []
                     end)
    (publish_requests tr).

(** The printed output contains [needle]. *)
Definition output_contains (needle : string) (lines : list string) : bool :=
  existsb (Py.contains needle) lines.

(** Two namespaces that differ at most in [conn_embed] and [conn_oauth]. *)
Definition same_but_conn_flags (a b : Argparse.Namespace) : Prop :=
  Argparse.server a = Argparse.server b /\
  Argparse.site a = Argparse.site b /\
  Argparse.username a = Argparse.username b /\
  Argparse.filepath a = Argparse.filepath b /\
  Argparse.logging_level a = Argparse.logging_level b /\
  Argparse.as_job a = Argparse.as_job b /\
  Argparse.conn_username a = Argparse.conn_username b /\
  Argparse.conn_password a = Argparse.conn_password b.

(** ** Sample command lines and worlds *)

(** The command line of the end-to-end property:
    [-s https://host -u alice -f ds.tdsx]. *)
Definition argv_basic : list string :=
  ["-s"; "https://host"; "-u"; "alice"; "-f"; "ds.tdsx"].

(** A world in which everything succeeds: the password typed is
    [password], the publish call returns an item with identifier [id]. *)
Definition world_ok (password id : string) : World :=
  {| getpass_reply := inr password;
     server_reply := fun _ => None;
     sign_in_reply := fun _ _ => None;
     publish_reply := fun _ => inr id |}.

(** A world in which the publish call fails with [e]. *)
Definition world_publish_fails (e : Exn) : World :=
  {| getpass_reply := inr "secret";
     server_reply := fun _ => None;
     sign_in_reply := fun _ _ => None;
     publish_reply := fun _ => inl e |}.

(** A world in which the sign-in fails with [e]. *)
Definition world_sign_in_fails (e : Exn) : World :=
  {| getpass_reply := inr "secret";
     server_reply := fun _ => None;
     sign_in_reply := fun _ _ => Some e;
     publish_reply := fun _ => inr "id" |}.

Definition file_not_found : Exn :=
  {| exn_type := "OSError"; exn_text := "File path does not lead to an existing file." |}.

Definition not_signed_in : Exn :=
  {| exn_type := "ServerResponseError"; exn_text := "401001: Signin Error" |}.

(** ** What holds of the namespace while the parser runs *)

Definition is_some {A} (o : option A) : bool :=
  match o with Some _ => true | None => false end.

(** The invariant of the parsing loop for the script's parser: the logging
    level is one of the choices and is the default until its option is met;
    a flag is true exactly when its option was met; a stored attribute is
    set exactly when its option was met. *)
Definition parser_inv (ns : Argparse.Namespace) (seen : list Argparse.Dest) : Prop :=
  In (Argparse.logging_level ns) [Some "debug"; Some "info"; Some "error"] /\
  (Argparse.seen_in Argparse.d_logging_level seen = false ->
   Argparse.logging_level ns = Some "error") /\
  Argparse.as_job ns = Argparse.seen_in Argparse.d_as_job seen /\
  Argparse.conn_embed ns = Argparse.seen_in Argparse.d_conn_embed seen /\
  Argparse.conn_oauth ns = Argparse.seen_in Argparse.d_conn_oauth seen /\
  is_some (Argparse.server ns) = Argparse.seen_in Argparse.d_server seen /\
  is_some (Argparse.site ns) = Argparse.seen_in Argparse.d_site seen /\
  is_some (Argparse.username ns) = Argparse.seen_in Argparse.d_username seen /\
  is_some (Argparse.filepath ns) = Argparse.seen_in Argparse.d_filepath seen /\
  is_some (Argparse.conn_username ns) = Argparse.seen_in Argparse.d_conn_username seen /\
  is_some (Argparse.conn_password ns) = Argparse.seen_in Argparse.d_conn_password seen.

(** The option tuples a pattern notes name actions of the parser. *)
Definition pattern_ok (acts : list Argparse.Argument) (p : Argparse.Pattern) : Prop :=
  match p with
  | Argparse.pat_O (Some a, _, _) => In a acts
  | _ => True
  end.

Definition tuple_ok (acts : list Argparse.Argument) (t : Argparse.OptionTuple) : Prop :=
  match t with
  | (Some a, _, _) => In a acts
  | _ => True
  end.

(** ** Notions the further properties use *)

(** [getattr(args, dest)] for the attributes that hold a string. *)
Definition attribute (d : Argparse.Dest) (ns : Argparse.Namespace) : option string :=
  match d with
  | Argparse.d_server => Argparse.server ns
  | Argparse.d_site => Argparse.site ns
  | Argparse.d_username => Argparse.username ns
  | Argparse.d_filepath => Argparse.filepath ns
  | Argparse.d_logging_level => Argparse.logging_level ns
  | Argparse.d_conn_username => Argparse.conn_username ns
  | Argparse.d_conn_password => Argparse.conn_password ns
  | _ => None
  end.

(** The place of an event in the order of the steps of the script. *)
Definition rank (ev : Event) : nat :=
  match ev with
  | EvUsage _ | EvHelp => 0
  | EvGetpass _ => 1
  | EvBasicConfig _ => 2
  | EvServer _ => 3
  | EvSignIn _ _ => 4
  | EvPublish _ => 5
  | EvPrint _ => 6
  | EvSignOut => 7
  end.

(** A string that cannot be taken for an option: it does not start with
    [-]. *)
Definition plain (s : string) : bool := negb (Py.startswith s "-").

(** The items left to consume start with an option string (or with [--]),
    or there are none: nothing here can be taken as the argument of an
    option that comes before. *)
Definition option_headed (items : list (string * Argparse.Pattern)) : Prop :=
  match items with
  | (_, Argparse.pat_A) :: _ => False
  | _ => True
  end.

(** [tok] abbreviates the long option string [long] and no other option
    string of the parser: it starts with [--], carries no [=], and [long]
    is the only option string that starts with it. *)
Definition abbreviates (acts : list Argparse.Argument) (tok long : string) : bool :=
  Py.startswith tok "--" && negb (Py.contains "=" tok) &&
  match filter (fun os => Py.startswith os tok)
          (map fst (Argparse._option_string_actions acts)) with
  | [os] => os =? long
  | _ => false
  end.

(** [tok] is an ambiguous abbreviation: it starts with [--], carries no
    [=], is not an option string itself and is the beginning of two option
    strings of the parser or more. *)
Definition ambiguous (acts : list Argparse.Argument) (tok : string) : bool :=
  Py.startswith tok "--" && negb (Py.contains "=" tok) &&
  negb (Py.mem tok (map fst (Argparse._option_string_actions acts))) &&
  (2 <=? length (filter (fun os => Py.startswith os tok)
                   (map fst (Argparse._option_string_actions acts))))%nat.

(** The world [w] with [typed] entered at the password prompt. *)
Definition with_password (w : World) (typed : string) : World :=
  {| getpass_reply := inr typed;
     server_reply := server_reply w;
     sign_in_reply := sign_in_reply w;
     publish_reply := publish_reply w |}.

(** An event with the password of a sign-in request blanked. *)
Definition forget_password (ev : Event) : Event :=
  match ev with
  | EvSignIn srv auth =>
      EvSignIn srv {| TSC.username := TSC.username auth; TSC.password := "";
                      TSC.site := TSC.site auth |}
  | _ => ev
  end.

(** The arguments a string of the command line hands to store actions in
    the string itself: the [value] of [--opt=value] and [-ovalue], also
    behind flags as in [-aovalue].  These are the argument strings
    [_get_values] receives without a following string being consumed. *)
Definition attached_arguments (acts : list Argparse.Argument) (tok : string)
  : list string :=
  match Argparse._parse_optional acts tok with
  | inr (Some (Some a, option_string, Some explicit_arg)) =>
      match Argparse.explicit_args acts a option_string explicit_arg with
      | inr (tuples, _) => flat_map (fun t : Argparse.ActionTuple => snd (fst t)) tuples
      | inl _ => []
      end
  | _ => []
  end.

(** No string of the command line attaches the argument [--] to an option
    of the script: on such command lines the interpreter releases agree on
    the value every store action gets. *)
Definition no_attached_dash (argv : list string) : bool :=
  forallb (fun tok => negb (Py.mem "--" (attached_arguments parser tok))) argv.

(** * Properties *)

(** ** The parser *)

Section ParserFacts.

Variable acts : list Argparse.Argument.

Lemma find_option_In s a :
  Argparse.find_option acts s = Some a -> In a acts.
Proof.
  unfold Argparse.find_option.
  destruct (find _ _) as [[s' a']|] eqn:E; [|discriminate].
  intros [= <-]. apply find_some in E. destruct E as [E _].
  unfold Argparse._option_string_actions in E.
  apply in_flat_map in E. destruct E as (b & Hb & E).
  apply in_map_iff in E. destruct E as (x & [= _ <-] & _). exact Hb.
Qed.

Lemma option_tuples_ok (f : string * Argparse.Argument -> list Argparse.OptionTuple) :
  (forall sa t, In t (f sa) -> fst (fst t) = Some (snd sa)) ->
  Forall (tuple_ok acts) (flat_map f (Argparse._option_string_actions acts)).
Proof.
  intros Hf. apply Forall_forall. intros t Ht.
  apply in_flat_map in Ht. destruct Ht as (sa & Hsa & Ht).
  specialize (Hf _ _ Ht). destruct t as [[o s] e]. simpl in Hf. subst o.
  simpl. unfold Argparse._option_string_actions in Hsa.
  apply in_flat_map in Hsa. destruct Hsa as (b & Hb & E).
  apply in_map_iff in E. destruct E as (x & <- & _). exact Hb.
Qed.

Lemma _get_option_tuples_ok c0 c1 rest ts :
  Argparse._get_option_tuples acts c0 c1 rest = inr ts ->
  Forall (tuple_ok acts) ts.
Proof.
  unfold Argparse._get_option_tuples.
  destruct (Argparse.is_prefix_char c0 && Argparse.is_prefix_char c1).
  - destruct (match Py.split1 "=" _ with Some _ => _ | None => _ end) as [pre ea].
    intros [= <-]. apply option_tuples_ok.
    intros sa t. destruct (Py.startswith _ _); simpl; [|tauto].
    intros [<-|[]]. reflexivity.
  - destruct (Argparse.is_prefix_char c0 && negb (Argparse.is_prefix_char c1));
      [|discriminate].
    intros [= <-]. apply option_tuples_ok.
    intros sa t. destruct (_ =? _); simpl.
    + intros [<-|[]]. reflexivity.
    + destruct (Py.startswith _ _); simpl; [|tauto].
      intros [<-|[]]. reflexivity.
Qed.

Lemma _parse_optional_ok s t :
  Argparse._parse_optional acts s = inr (Some t) -> tuple_ok acts t.
Proof.
  unfold Argparse._parse_optional.
  destruct s as [|c0 tail]; [discriminate|].
  destruct (negb _); [discriminate|].
  destruct (Argparse.find_option acts (String c0 tail)) as [a|] eqn:E.
  { intros [= <-]. simpl. eapply find_option_In; eassumption. }
  destruct tail as [|c1 rest]; [discriminate|].
  destruct (Py.split1 "=" _) as [[os ea]|].
  - destruct (Argparse.find_option acts os) as [a|] eqn:E'.
    { intros [= <-]. simpl. eapply find_option_In; eassumption. }
    destruct (Argparse._get_option_tuples acts c0 c1 rest) as [m|ts] eqn:T;
      [discriminate|].
    apply _get_option_tuples_ok in T.
    destruct ts as [|t1 [|t2 ts]]; [| |discriminate].
    + destruct (Argparse._negative_number_matcher _); [discriminate|].
      destruct (Py.contains _ _); [discriminate|].
      intros [= <-]. exact I.
    + intros [= <-]. inversion T; assumption.
  - destruct (Argparse._get_option_tuples acts c0 c1 rest) as [m|ts] eqn:T;
      [discriminate|].
    apply _get_option_tuples_ok in T.
    destruct ts as [|t1 [|t2 ts]]; [| |discriminate].
    + destruct (Argparse._negative_number_matcher _); [discriminate|].
      destruct (Py.contains _ _); [discriminate|].
      intros [= <-]. exact I.
    + intros [= <-]. inversion T; assumption.
Qed.

Lemma arg_strings_pattern_ok argv pats :
  Argparse.arg_strings_pattern acts argv = inr pats ->
  Forall (pattern_ok acts) pats.
Proof.
  revert pats. induction argv as [|s rest IH]; intros pats; simpl.
  - intros [= <-]. constructor.
  - destruct (s =? "--").
    + intros [= <-]. constructor; [exact I|].
      apply Forall_forall. intros p Hp. apply in_map_iff in Hp.
      destruct Hp as (? & <- & _). exact I.
    + destruct (Argparse._parse_optional acts s) as [m|ot] eqn:E; [discriminate|].
      destruct (Argparse.arg_strings_pattern acts rest) as [m|ps]; [discriminate|].
      intros [= <-]. constructor; [|apply IH; reflexivity].
      destruct ot as [t|]; [|exact I].
      apply _parse_optional_ok in E. destruct t as [[[a|] os] ea]; exact E.
Qed.

Lemma arg_strings_pattern_length argv pats :
  Argparse.arg_strings_pattern acts argv = inr pats ->
  length pats = length argv.
Proof.
  revert pats. induction argv as [|s rest IH]; intros pats; simpl.
  - intros [= <-]. reflexivity.
  - destruct (s =? "--").
    + intros [= <-]. simpl. now rewrite length_map.
    + destruct (Argparse._parse_optional acts s) as [m|ot]; [discriminate|].
      destruct (Argparse.arg_strings_pattern acts rest) as [m|ps]; [discriminate|].
      intros [= <-]. simpl. f_equal. now apply IH.
Qed.

Lemma explicit_args_ok e : forall a os ts last,
  In a acts ->
  Argparse.explicit_args acts a os e = inr (ts, last) ->
  Forall (fun t : Argparse.ActionTuple => In (fst (fst t)) acts) ts /\
  match last with Some (a', _) => In a' acts | None => True end.
Proof.
  induction e as [|c e' IH]; intros a os ts last Ha; simpl.
  - destruct (Argparse.arg_count a =? 1)%nat; [|discriminate].
    intros [= <- <-]. split; [repeat constructor; exact Ha | exact I].
  - destruct ((Argparse.arg_count a =? 0)%nat && _).
    + destruct (Argparse.find_option acts _) as [a'|] eqn:E; [|discriminate].
      apply find_option_In in E.
      destruct e' as [|c' e''].
      * intros [= <- <-]. split; [repeat constructor; exact Ha | exact E].
      * destruct (Argparse.explicit_args acts a' _ (String c' e''))
          as [m|[ts' last']] eqn:R; [discriminate|].
        intros [= <- <-]. destruct (IH _ _ _ _ E R) as [H1 H2].
        split; [constructor; [exact Ha | exact H1] | exact H2].
    + destruct (Argparse.arg_count a =? 1)%nat; [|discriminate].
      intros [= <- <-]. split; [repeat constructor; exact Ha | exact I].
Qed.

End ParserFacts.

(** ** The invariant of the parsing loop *)

Lemma seen_in_app d seen d' :
  Argparse.seen_in d (seen ++ [d']) =
  Argparse.seen_in d seen || Argparse.Dest_eqb d d'.
Proof.
  unfold Argparse.seen_in. rewrite existsb_app. simpl.
  now rewrite orb_false_r.
Qed.

Lemma mem_choices v :
  Py.mem v ["debug"; "info"; "error"] = true ->
  v = "debug" \/ v = "info" \/ v = "error".
Proof.
  unfold Py.mem. simpl.
  destruct (String.eqb_spec v "debug"); [auto|].
  destruct (String.eqb_spec v "info"); [auto|].
  destruct (String.eqb_spec v "error"); [auto|].
  discriminate.
Qed.

Lemma parser_inv_initial :
  parser_inv (Argparse.initial_namespace parser) [].
Proof.
  unfold parser_inv. cbn. intuition.
Qed.

Ltac inv_step :=
  match goal with
  | H : Argparse.Parsed _ = Argparse.Parsed _ |- _ =>
      injection H; clear H; intros; subst
  | H : Argparse.HelpExit = Argparse.Parsed _ |- _ => discriminate H
  | H : Argparse.UsageError _ = Argparse.Parsed _ |- _ => discriminate H
  end.

Lemma take_action_inv a args os ns seen ns' seen' :
  In a parser -> parser_inv ns seen ->
  Argparse.take_action (a, args, os) (ns, seen) = Argparse.Parsed (ns', seen') ->
  parser_inv ns' seen'.
Proof.
  intros Ha Hinv H.
  destruct Hinv as (I1 & I2 & I3 & I4 & I5 & I6 & I7 & I8 & I9 & I10 & I11).
  unfold parser in Ha. simpl in Ha.
  repeat (destruct Ha as [<- | Ha]); try contradiction;
    unfold Argparse.take_action in H; cbn [add_argument Argparse.action
      Argparse.dest Argparse.choices Argparse._check_value] in H;
    try (destruct args as [|v [|? ?]]; try discriminate H);
    try (destruct (Py.mem v _) eqn:Hmem; [|discriminate H]);
    try inv_step;
    unfold parser_inv;
    cbn [Argparse.setattr_store Argparse.setattr_true Argparse.logging_level
         Argparse.as_job Argparse.conn_embed Argparse.conn_oauth Argparse.server
         Argparse.site Argparse.username Argparse.filepath
         Argparse.conn_username Argparse.conn_password is_some];
    rewrite !seen_in_app; cbn [Argparse.Dest_eqb Argparse.Dest_eq_dec];
    try (apply mem_choices in Hmem);
    repeat split;
    try (rewrite ?orb_false_r, ?orb_true_r; first [assumption | reflexivity]).
  all: try (simpl; rewrite ?orb_false_r; first [assumption | reflexivity | discriminate]).
  all: try (destruct Hmem as [-> | [-> | ->]]; simpl; auto).
  all: try (intros Hs; rewrite orb_false_r in Hs; auto).
  all: intros Hs; simpl in Hs; rewrite orb_true_r in Hs; discriminate.
Qed.

Lemma take_actions_inv ts : forall ns seen ns' seen',
  Forall (fun t : Argparse.ActionTuple => In (fst (fst t)) parser) ts ->
  parser_inv ns seen ->
  Argparse.take_actions ts (ns, seen) = Argparse.Parsed (ns', seen') ->
  parser_inv ns' seen'.
Proof.
  induction ts as [|[[a args] os] ts IH]; intros ns seen ns' seen' Hts Hinv;
    cbn [Argparse.take_actions].
  - intros [= <- <-]. exact Hinv.
  - inversion Hts as [|? ? Ha Hrest]; subst.
    destruct (Argparse.take_action (a, args, os) (ns, seen)) as [[ns1 seen1]| |m] eqn:E;
      try discriminate.
    intros H. eapply IH; [exact Hrest | | exact H].
    eapply take_action_inv; [exact Ha | exact Hinv | exact E].
Qed.

Lemma consume_inv n : forall items ns seen extras ns' seen' extras',
  length items <= n ->
  Forall (fun it => pattern_ok parser (snd it)) items ->
  parser_inv ns seen ->
  Argparse.consume parser items ns seen extras = Argparse.Parsed (ns', seen', extras') ->
  parser_inv ns' seen'.
Proof.
  induction n as [|n IH]; intros items ns seen extras ns' seen' extras' Hlen Hok Hinv.
  - destruct items; [|simpl in Hlen; lia]. simpl. intros [= <- <- _]. exact Hinv.
  - destruct items as [|[s p] rest]; cbn [Argparse.consume].
    { intros [= <- <- _]. exact Hinv. }
    simpl in Hlen. inversion Hok as [|? ? Hp Hrest]; subst. simpl in Hp.
    destruct p as [|[[[a|] os] ea]|];
      try (apply IH; [lia | exact Hrest | exact Hinv]).
    destruct (match ea with
              | Some e => Argparse.explicit_args parser a os e
              | None => inr ([], Some (a, os))
              end) as [m|[ts last]] eqn:E; [discriminate|].
    assert (Hts : Forall (fun t : Argparse.ActionTuple => In (fst (fst t)) parser) ts /\
                  match last with Some (a', _) => In a' parser | None => True end).
    { destruct ea as [e|].
      - eapply explicit_args_ok; eassumption.
      - injection E as <- <-. split; [constructor | exact Hp]. }
    destruct Hts as [Hts Hlast].
    destruct last as [[a' os']|].
    + destruct (Argparse.arg_count a').
      * destruct (Argparse.take_actions _ _) as [[ns1 seen1]| |m] eqn:T; try discriminate.
        assert (Hinv1 : parser_inv ns1 seen1).
        { eapply take_actions_inv; [|exact Hinv|exact T].
          apply Forall_app. split; [exact Hts|]. constructor; [exact Hlast | constructor]. }
        apply IH; [lia | exact Hrest | exact Hinv1].
      * destruct rest as [|[v [| |]] rest']; try discriminate.
        destruct (Argparse.take_actions _ _) as [[ns1 seen1]| |m] eqn:T; try discriminate.
        assert (Hinv1 : parser_inv ns1 seen1).
        { eapply take_actions_inv; [|exact Hinv|exact T].
          apply Forall_app. split; [exact Hts|]. constructor; [exact Hlast | constructor]. }
        apply IH; [simpl in Hlen; lia | | exact Hinv1].
        inversion Hrest; assumption.
    + destruct (Argparse.take_actions _ _) as [[ns1 seen1]| |m] eqn:T; try discriminate.
      assert (Hinv1 : parser_inv ns1 seen1).
      { eapply take_actions_inv; [exact Hts|exact Hinv|exact T]. }
      apply IH; [lia | exact Hrest | exact Hinv1].
Qed.

(** What a successful parse gives: the namespace satisfies the invariant for
    the actions seen, nothing was left over and no required option is
    missing. *)
Lemma parse_args_inv argv args :
  Argparse.parse_args parser argv = Argparse.Parsed args ->
  parser_inv args (Argparse.seen_actions parser argv) /\
  Argparse._parse_known_args parser argv =
    Argparse.Parsed (args, Argparse.seen_actions parser argv, []) /\
  Argparse.required_actions parser (Argparse.seen_actions parser argv) = [].
Proof.
  unfold Argparse.parse_args, Argparse.seen_actions.
  destruct (Argparse._parse_known_args parser argv) as [[[ns seen] extras]| |m] eqn:K;
    try discriminate.
  destruct extras; [|discriminate]. intros [= <-].
  unfold Argparse._parse_known_args in K.
  destruct (Argparse.arg_strings_pattern parser argv) as [m|pats] eqn:P; [discriminate|].
  destruct (Argparse.consume parser _ _ _ _) as [[[ns1 seen1] extras1]| |m] eqn:C;
    try discriminate.
  destruct (Argparse.required_actions parser seen1) eqn:R; [|discriminate].
  injection K as <- <- ->.
  split; [|split; [reflexivity | exact R]].
  eapply consume_inv; [apply le_n | | apply parser_inv_initial | exact C].
  apply Forall_forall. intros [s p] Hin. apply in_combine_r in Hin. simpl.
  apply arg_strings_pattern_ok in P.
  rewrite Forall_forall in P. apply P. exact Hin.
Qed.

Lemma required_actions_nil acts seen a :
  Argparse.required_actions acts seen = [] ->
  In a acts -> Argparse.required a = true ->
  Argparse.seen_in (Argparse.dest a) seen = true.
Proof.
  unfold Argparse.required_actions. intros R Ha Hreq.
  apply map_eq_nil in R.
  destruct (Argparse.seen_in (Argparse.dest a) seen) eqn:E; [reflexivity|].
  assert (Hin : In a (filter (fun a => negb (Argparse.seen_in (Argparse.dest a) seen)
                                      && Argparse.required a) acts)).
  { apply filter_In. split; [exact Ha|]. now rewrite E, Hreq. }
  rewrite R in Hin. destruct Hin.
Qed.

(** A run accepted by the parser has the three required options. *)
Lemma parse_args_required argv args :
  Argparse.parse_args parser argv = Argparse.Parsed args ->
  is_some (Argparse.server args) = true /\
  is_some (Argparse.username args) = true /\
  is_some (Argparse.filepath args) = true.
Proof.
  intros H. apply parse_args_inv in H.
  destruct H as ((_ & _ & _ & _ & _ & I6 & _ & I8 & I9 & _) & _ & R).
  rewrite I6, I8, I9. clear I6 I8 I9.
  repeat split.
  - apply (required_actions_nil _ _
             (add_argument ["--server"; "-s"] Argparse.d_server Argparse.store
                true None None) R); [|reflexivity].
    unfold parser. simpl. auto.
  - apply (required_actions_nil _ _
             (add_argument ["--username"; "-u"] Argparse.d_username Argparse.store
                true None None) R); [|reflexivity].
    unfold parser. simpl. auto 6.
  - apply (required_actions_nil _ _
             (add_argument ["--filepath"; "-f"] Argparse.d_filepath Argparse.store
                true None None) R); [|reflexivity].
    unfold parser. simpl. auto 6.
Qed.

(** ** The script, case by case *)

Lemma main_parsed argv w args :
  Argparse.parse_args parser argv = Argparse.Parsed args ->
  main argv w = run w args start.
Proof.
  intros H. unfold main, parse_args, bind. rewrite H. reflexivity.
Qed.

Lemma main_help argv w :
  Argparse.parse_args parser argv = Argparse.HelpExit ->
  main argv w =
  (SystemExit 0, {| trace := [EvHelp]; signed_in := false;
                    root_level := Logging.WARNING |}).
Proof.
  intros H. unfold main, parse_args, bind. rewrite H. reflexivity.
Qed.

Lemma main_usage argv w m :
  Argparse.parse_args parser argv = Argparse.UsageError m ->
  main argv w = (SystemExit 2, usage_state m).
Proof.
  intros H. unfold main, parse_args, bind. rewrite H. reflexivity.
Qed.

Lemma run_mismatch w args :
  conn_mismatch args = true ->
  run w args start = (SystemExit 2, usage_state both_required).
Proof.
  intros H. unfold run, bind. rewrite H. reflexivity.
Qed.

Lemma run_checked w args :
  conn_mismatch args = false ->
  run w args start = checked w args start.
Proof.
  intros H. unfold run, bind. rewrite H. reflexivity.
Qed.


(** Normalises a run down to the replies of the world. *)
Ltac run_norm :=
  cbv beta iota zeta delta
    [checked publish_datasource with_ bind getpass upper logging_getattr basicConfig
     Server sign_in sign_out publish print parser_error emit raise sys_exit ret
     start trace signed_in root_level fst snd app].

(** The nine ways a run that passed the consistency check can go. *)
Ltac case_getattr :=
  match goal with
  | |- context [Logging.getattr (Py.upper ?n)] =>
      destruct (Logging.getattr (Py.upper n)) as [?level|] eqn:Hlevel
  end.

Ltac case_server w :=
  match goal with
  | |- context [server_reply w ?srv] =>
      destruct (server_reply w srv) as [?e|] eqn:Hsrv
  end.

Ltac case_sign_in w :=
  match goal with
  | |- context [sign_in_reply w ?srv ?auth] =>
      destruct (sign_in_reply w srv auth) as [?e|] eqn:Hsi
  end.

Ltac case_publish w :=
  match goal with
  | |- context [publish_reply w ?r] =>
      destruct (publish_reply w r) as [?e|?id] eqn:Hpub
  end.

Ltac run_cases w args :=
  run_norm;
  destruct (getpass_reply w) as [?e|?pw] eqn:Hgp; run_norm;
  [ | destruct (Argparse.logging_level args) as [?name|] eqn:Hname; run_norm;
      [ case_getattr; run_norm;
        [ case_server w; run_norm;
          [ | case_sign_in w; run_norm;
              [ | destruct (Argparse.as_job args) eqn:Hjob; run_norm;
                  case_publish w; run_norm ] ]
        | ]
      | ] ].

(** Splits a run of [main] by the outcome of the parser and of the
    consistency check; what is left is [run] past the check. *)
Ltac main_cases argv w :=
  let P := fresh "Hparse" in
  let C := fresh "Hcheck" in
  destruct (Argparse.parse_args parser argv) as [?args| |?m] eqn:P;
  [ rewrite (main_parsed argv w _ P);
    match goal with
    | a : Argparse.Namespace |- _ =>
        destruct (conn_mismatch a) eqn:C;
        [ rewrite (run_mismatch w a C)
        | rewrite (run_checked w a C) ]
    end
  | rewrite (main_help argv w P)
  | rewrite (main_usage argv w _ P) ].

(** What the parser found, in terms of the options supplied. *)
Lemma parsed_supplied argv args :
  Argparse.parse_args parser argv = Argparse.Parsed args ->
  Argparse.as_job args = supplied Argparse.d_as_job argv /\
  Argparse.conn_embed args = supplied Argparse.d_conn_embed argv /\
  Argparse.conn_oauth args = supplied Argparse.d_conn_oauth argv /\
  is_some (Argparse.conn_username args) = supplied Argparse.d_conn_username argv /\
  is_some (Argparse.conn_password args) = supplied Argparse.d_conn_password argv.
Proof.
  intros H. apply parse_args_inv in H.
  destruct H as ((_ & _ & I3 & I4 & I5 & _ & _ & _ & _ & I10 & I11) & _).
  unfold supplied. auto.
Qed.



(** ** Worked runs *)

(** The end-to-end property of the specification. *)
Example end_to_end :
  main argv_basic (world_ok "pw" "lukedelaruelle") =
  (Ok tt,
   {| trace :=
        [ EvGetpass "Password: "; EvBasicConfig Logging.ERROR;
          EvServer {| TSC.server_address := Some "https://host";
                      TSC.use_server_version := true |};
          EvSignIn {| TSC.server_address := Some "https://host";
                      TSC.use_server_version := true |}
                   {| TSC.username := Some "alice"; TSC.password := "pw";
                      TSC.site := None |};
          EvPublish {| TSC.datasource_item := {| TSC.project_id := "" |};
                       TSC.file_path := Some "ds.tdsx";
                       TSC.mode := TSC.Overwrite;
                       TSC.connection_credentials := None;
                       TSC.as_job := false |};
          EvPrint "Datasource published. Datasource ID: lukedelaruelle";
          EvSignOut ];
      signed_in := false;
      root_level := Logging.ERROR |}).
Proof. vm_compute. reflexivity. Qed.

Example abbreviated_and_attached_options :
  Argparse.parse_args parser
    ["--serv=https://host"; "-ualice"; "-al"; "info"; "--file"; "ds.tdsx"] =
  Argparse.Parsed
    {| Argparse.server := Some "https://host"; Argparse.site := None;
       Argparse.username := Some "alice"; Argparse.filepath := Some "ds.tdsx";
       Argparse.logging_level := Some "info"; Argparse.as_job := true;
       Argparse.conn_username := None; Argparse.conn_password := None;
       Argparse.conn_embed := false; Argparse.conn_oauth := false |}.
Proof. vm_compute. reflexivity. Qed.

Example missing_required_option :
  Argparse.parse_args parser ["-s"; "https://host"; "-u"; "alice"] =
  Argparse.UsageError (Argparse.arguments_required [["--filepath"; "-f"]]).
Proof. vm_compute. reflexivity. Qed.

Example help_requested :
  main ["-s"; "https://host"; "-h"; "--whatever"] (world_ok "pw" "id") =
  (SystemExit 0, {| trace := [EvHelp]; signed_in := false;
                    root_level := Logging.WARNING |}).
Proof. vm_compute. reflexivity. Qed.

(** ** The claims *)

(** C3. For every command line and every world, each publish request the
    script issues has the empty project reference and the publish mode
    Overwrite: no flag changes either value. *)
Theorem publish_request_fixed argv w :
  Forall (fun r => TSC.project_id (TSC.datasource_item r) = ""
                   /\ TSC.mode r = TSC.Overwrite)
    (publish_requests (trace (snd (main argv w)))).
Proof.
  main_cases argv w; try (simpl; constructor).
  run_cases w args; simpl; repeat constructor.
Qed.

(** C5. On every path the session discipline holds along the trace (a
    publish request is only issued with the session open, a session the
    world granted is signed out before the trace ends, whether the publish
    call returned or raised) and the process ends signed out. *)
Theorem session_scoped argv w :
  scoped w (trace (snd (main argv w))) = true /\
  signed_in (snd (main argv w)) = false.
Proof.
  main_cases argv w; try (simpl; split; reflexivity).
  run_cases w args; unfold scoped; cbn [scoped_from negb andb];
    rewrite ?Hsi; cbn [scoped_from negb andb]; split; reflexivity.
Qed.

(** C9. The password prompt comes only after the arguments were parsed and
    passed the consistency check: a run that ends with a usage error (exit
    status 2) wrote the error text and nothing else, so it never prompted;
    and a run that prompted had its command line accepted and consistent. *)
Theorem prompt_after_checks argv w :
  (fst (main argv w) = SystemExit 2 ->
   (exists m, snd (main argv w) = usage_state m) /\
   existsb is_getpass (trace (snd (main argv w))) = false) /\
  (existsb is_getpass (trace (snd (main argv w))) = true ->
   exists args, Argparse.parse_args parser argv = Argparse.Parsed args /\
                conn_mismatch args = false).
Proof.
  main_cases argv w; cbn [fst snd].
  - split; [intros _; split; [eexists; reflexivity | reflexivity]|].
    simpl. discriminate.
  - split; [|intros _; eexists; split; [reflexivity | exact Hcheck]].
    run_cases w args; intros H; discriminate H.
  - split; [discriminate | simpl; discriminate].
  - split; [intros _; split; [eexists; reflexivity | reflexivity]|].
    simpl. discriminate.
Qed.

(** A run stopped by the consistency check: status 2 and no prompt. *)
Lemma prompt_after_checks_witness :
  fst (main (argv_basic ++ ["--conn-password"; "pw"]) (world_ok "pw" "id"))
    = SystemExit 2 /\
  existsb is_getpass
    (trace (snd (main (argv_basic ++ ["--conn-password"; "pw"]) (world_ok "pw" "id"))))
    = false.
Proof.
  split; [vm_compute; reflexivity|].
  apply (proj1 (prompt_after_checks (argv_basic ++ ["--conn-password"; "pw"])
                  (world_ok "pw" "id"))).
  vm_compute. reflexivity.
Defined.

(** C6. Whenever a request of the script (the prompt, the creation of the
    server handle, the sign-in, the publish call) is answered with an
    exception, that exception leaves [main] uncaught: the process ends with
    status 1, nothing was printed, and no request was issued twice. *)
Theorem library_error_propagates argv w ev e :
  In ev (trace (snd (main argv w))) ->
  answered_with w ev e ->
  fst (main argv w) = Raise e /\
  exit_status (fst (main argv w)) = 1%Z /\
  printed (snd (main argv w)) = [] /\
  length (filter is_sign_in (trace (snd (main argv w)))) <= 1 /\
  length (filter is_publish (trace (snd (main argv w)))) <= 1.
Proof.
  main_cases argv w; cbn [fst snd trace usage_state].
  - intros [<-|[]] [].
  - run_cases w args; cbn [In]; intros Hin Hans;
      repeat (destruct Hin as [<-|Hin]); try contradiction; cbn in Hans;
      try contradiction; try congruence;
      (assert (e = e0) by congruence; subst e0);
      cbn; repeat split; lia.
  - intros [<-|[]] [].
  - intros [<-|[]] [].
Qed.

(** A publish call that fails with [file_not_found]. *)
Lemma library_error_propagates_witness :
  fst (main argv_basic (world_publish_fails file_not_found)) = Raise file_not_found /\
  printed (snd (main argv_basic (world_publish_fails file_not_found))) = [].
Proof.
  assert (H := library_error_propagates argv_basic (world_publish_fails file_not_found)
    (EvPublish {| TSC.datasource_item := {| TSC.project_id := "" |};
                  TSC.file_path := Some "ds.tdsx"; TSC.mode := TSC.Overwrite;
                  TSC.connection_credentials := None; TSC.as_job := false |})
    file_not_found).
  destruct H as (H1 & _ & H3 & _).
  - vm_compute. do 4 right. left. reflexivity.
  - reflexivity.
  - split; assumption.
Defined.

(** C1, as stated, fails: with [--conn-username] given the empty string and
    no [--conn-password], exactly one of the two options is supplied, yet
    the script prompts, signs in, publishes and returns normally. *)
Lemma conn_username_empty_alone_accepted :
  supplied Argparse.d_conn_username (argv_basic ++ ["--conn-username"; ""]) = true /\
  supplied Argparse.d_conn_password (argv_basic ++ ["--conn-username"; ""]) = false /\
  fst (main (argv_basic ++ ["--conn-username"; ""]) (world_ok "pw" "id")) = Ok tt /\
  existsb is_network
    (trace (snd (main (argv_basic ++ ["--conn-username"; ""]) (world_ok "pw" "id"))))
    = true.
Proof. vm_compute. repeat split; reflexivity. Qed.

(** C1, amended. For every command line the parser accepts in which exactly
    one of the connection user name and the connection password has a
    non-empty value (the other being absent or empty), the script stops
    through [parser.error] with exit status 2 having written only the error
    text: no prompt and no network activity came before. *)
Theorem conn_mismatch_usage_error argv w args :
  Argparse.parse_args parser argv = Argparse.Parsed args ->
  xorb (Py.truthy (Argparse.conn_username args))
       (Py.truthy (Argparse.conn_password args)) = true ->
  main argv w = (SystemExit 2, usage_state both_required) /\
  existsb is_network (trace (snd (main argv w))) = false /\
  existsb is_getpass (trace (snd (main argv w))) = false.
Proof.
  intros Hparse Hxor.
  rewrite (main_parsed _ _ _ Hparse).
  rewrite run_mismatch; [repeat split|].
  unfold conn_mismatch.
  destruct (Py.truthy (Argparse.conn_username args)),
           (Py.truthy (Argparse.conn_password args)); (discriminate || reflexivity).
Qed.

(** [--conn-username dbuser] without [--conn-password]. *)
Lemma conn_mismatch_usage_error_witness :
  main (argv_basic ++ ["--conn-username"; "dbuser"]) (world_ok "pw" "id") =
  (SystemExit 2, usage_state both_required).
Proof.
  eapply (fun args H1 H2 =>
            proj1 (conn_mismatch_usage_error
                     (argv_basic ++ ["--conn-username"; "dbuser"])
                     (world_ok "pw" "id") args H1 H2));
    vm_compute; reflexivity.
Defined.

(** C8. Presence of the connection credentials is decided by the truth
    value of the strings: when both options are supplied and the user name
    is the empty string, a non-empty password gives the usage error, and an
    empty password lets the script go on (the prompt comes next) with no
    connection credentials in any publish request. *)
Theorem empty_conn_username argv w args p :
  Argparse.parse_args parser argv = Argparse.Parsed args ->
  Argparse.conn_username args = Some "" ->
  Argparse.conn_password args = Some p ->
  supplied Argparse.d_conn_username argv = true /\
  supplied Argparse.d_conn_password argv = true /\
  (p <> "" -> main argv w = (SystemExit 2, usage_state both_required)) /\
  (p = "" ->
   hd_error (trace (snd (main argv w))) = Some (EvGetpass "Password: ") /\
   new_conn_creds args = None /\
   Forall (fun r => TSC.connection_credentials r = None)
     (publish_requests (trace (snd (main argv w))))).
Proof.
  intros Hparse Hu Hp.
  destruct (parsed_supplied _ _ Hparse) as (_ & _ & _ & Su & Sp).
  rewrite Hu in Su. rewrite Hp in Sp. simpl in Su, Sp.
  split; [now symmetry|]. split; [now symmetry|].
  rewrite (main_parsed _ _ _ Hparse). split.
  - intros Hne. apply run_mismatch. unfold conn_mismatch. rewrite Hu, Hp. simpl.
    destruct (String.eqb_spec p ""); [contradiction | reflexivity].
  - intros ->.
    assert (Hcreds : new_conn_creds args = None).
    { unfold new_conn_creds. rewrite Hu. reflexivity. }
    rewrite run_checked by (unfold conn_mismatch; rewrite Hu, Hp; reflexivity).
    run_cases w args; rewrite ?Hcreds; simpl; repeat constructor.
Qed.

(** An empty user name with the password [dbpass]. *)
Lemma empty_conn_username_witness :
  main (argv_basic ++ ["--conn-username"; ""; "--conn-password"; "dbpass"])
       (world_ok "pw" "id") =
  (SystemExit 2, usage_state both_required).
Proof.
  edestruct (empty_conn_username
               (argv_basic ++ ["--conn-username"; ""; "--conn-password"; "dbpass"])
               (world_ok "pw" "id")) as (_ & _ & H & _);
    [vm_compute; reflexivity | reflexivity | reflexivity | apply H; discriminate].
Defined.

(** C10. When neither [--conn-username] nor [--conn-password] is supplied,
    [--conn-embed] and [--conn-oauth] change nothing: two accepted command
    lines whose namespaces differ at most in these two flags give, in the
    same world, the same run (result, requests and output), with no
    connection credentials in any publish request. *)
Theorem conn_flags_without_credentials argv1 argv2 args1 args2 w :
  Argparse.parse_args parser argv1 = Argparse.Parsed args1 ->
  Argparse.parse_args parser argv2 = Argparse.Parsed args2 ->
  same_but_conn_flags args1 args2 ->
  supplied Argparse.d_conn_username argv1 = false ->
  supplied Argparse.d_conn_password argv1 = false ->
  main argv1 w = main argv2 w /\
  publish_requests (trace (snd (main argv1 w))) =
    publish_requests (trace (snd (main argv2 w))) /\
  printed (snd (main argv1 w)) = printed (snd (main argv2 w)) /\
  Forall (fun r => TSC.connection_credentials r = None)
    (publish_requests (trace (snd (main argv1 w)))).
Proof.
  intros P1 P2 Hsame Su Sp.
  destruct (parsed_supplied _ _ P1) as (_ & _ & _ & Iu & Ip).
  rewrite Su in Iu. rewrite Sp in Ip.
  assert (Hmain : main argv1 w = main argv2 w).
  { rewrite (main_parsed _ _ _ P1), (main_parsed _ _ _ P2).
    destruct args1, args2. unfold same_but_conn_flags in Hsame.
    cbn in Hsame, Iu, Ip.
    destruct Hsame as (-> & -> & -> & -> & -> & -> & -> & ->).
    destruct conn_username0; [discriminate|].
    destruct conn_password0; [discriminate|].
    reflexivity. }
  rewrite <- Hmain. repeat split.
  rewrite (main_parsed _ _ _ P1).
  assert (Hcreds : new_conn_creds args1 = None).
  { unfold new_conn_creds. destruct (Argparse.conn_username args1); [discriminate|].
    reflexivity. }
  destruct (conn_mismatch args1) eqn:C.
  - rewrite (run_mismatch _ _ C). constructor.
  - rewrite (run_checked _ _ C).
    run_cases w args1; rewrite ?Hcreds; simpl; repeat constructor.
Qed.

(** Both flags added to the basic command line change nothing. *)
Lemma conn_flags_without_credentials_witness :
  main (argv_basic ++ ["--conn-embed"; "--conn-oauth"]) (world_ok "pw" "id") =
  main argv_basic (world_ok "pw" "id").
Proof.
  edestruct (conn_flags_without_credentials
               (argv_basic ++ ["--conn-embed"; "--conn-oauth"]) argv_basic)
    as (H & _);
    [ vm_compute; reflexivity | vm_compute; reflexivity
    | repeat split | reflexivity | reflexivity | exact H ].
Defined.

(** C4, as stated, fails: with both options supplied and both values empty,
    the publish request carries no connection credentials. *)
Lemma conn_credentials_both_empty_dropped :
  supplied Argparse.d_conn_username
    (argv_basic ++ ["--conn-username"; ""; "--conn-password"; ""]) = true /\
  supplied Argparse.d_conn_password
    (argv_basic ++ ["--conn-username"; ""; "--conn-password"; ""]) = true /\
  map TSC.connection_credentials
    (publish_requests
       (trace (snd (main (argv_basic ++ ["--conn-username"; ""; "--conn-password"; ""])
                         (world_ok "pw" "id"))))) = [None].
Proof. vm_compute. repeat split; reflexivity. Qed.

(** C4, amended. For every accepted command line: when both
    [--conn-username] and [--conn-password] have non-empty values, every
    publish request carries the connection credentials made of exactly
    these two values, with [embed] and [oauth] equal to the presence of
    [--conn-embed] and [--conn-oauth]; when neither option is supplied,
    every publish request carries [None]. *)
Theorem connection_credentials_passed argv w args :
  Argparse.parse_args parser argv = Argparse.Parsed args ->
  (forall u p,
     Argparse.conn_username args = Some u -> u <> "" ->
     Argparse.conn_password args = Some p -> p <> "" ->
     Forall (fun r => TSC.connection_credentials r =
                      Some {| TSC.name := Some u; TSC.conn_password := Some p;
                              TSC.embed := supplied Argparse.d_conn_embed argv;
                              TSC.oauth := supplied Argparse.d_conn_oauth argv |})
       (publish_requests (trace (snd (main argv w))))) /\
  (supplied Argparse.d_conn_username argv = false ->
   supplied Argparse.d_conn_password argv = false ->
   Forall (fun r => TSC.connection_credentials r = None)
     (publish_requests (trace (snd (main argv w))))).
Proof.
  intros Hparse.
  destruct (parsed_supplied _ _ Hparse) as (_ & Ie & Io & Iu & Ip).
  rewrite (main_parsed _ _ _ Hparse). split.
  - intros u p Hu Hune Hp Hpne.
    assert (Hcreds : new_conn_creds args =
                     Some {| TSC.name := Some u; TSC.conn_password := Some p;
                             TSC.embed := supplied Argparse.d_conn_embed argv;
                             TSC.oauth := supplied Argparse.d_conn_oauth argv |}).
    { unfold new_conn_creds. rewrite Hu, Hp, Ie, Io. simpl.
      destruct (String.eqb_spec u ""); [contradiction | reflexivity]. }
    destruct (conn_mismatch args) eqn:C.
    + rewrite (run_mismatch _ _ C). constructor.
    + rewrite (run_checked _ _ C).
      run_cases w args; rewrite ?Hcreds; simpl; repeat constructor.
  - intros Su Sp. rewrite Su in Iu.
    assert (Hcreds : new_conn_creds args = None).
    { unfold new_conn_creds. destruct (Argparse.conn_username args); [discriminate|].
      reflexivity. }
    destruct (conn_mismatch args) eqn:C.
    + rewrite (run_mismatch _ _ C). constructor.
    + rewrite (run_checked _ _ C).
      run_cases w args; rewrite ?Hcreds; simpl; repeat constructor.
Qed.

(** Both values non-empty, with [--conn-embed]. *)
Lemma connection_credentials_passed_witness :
  Forall (fun r => TSC.connection_credentials r =
                   Some {| TSC.name := Some "dbuser";
                           TSC.conn_password := Some "dbpass";
                           TSC.embed :=
                             supplied Argparse.d_conn_embed
                               (argv_basic ++ ["--conn-username"; "dbuser";
                                               "--conn-password"; "dbpass";
                                               "--conn-embed"]);
                           TSC.oauth :=
                             supplied Argparse.d_conn_oauth
                               (argv_basic ++ ["--conn-username"; "dbuser";
                                               "--conn-password"; "dbpass";
                                               "--conn-embed"]) |})
    (publish_requests
       (trace (snd (main (argv_basic ++ ["--conn-username"; "dbuser";
                                         "--conn-password"; "dbpass"; "--conn-embed"])
                         (world_ok "pw" "id"))))).
Proof.
  edestruct (connection_credentials_passed
               (argv_basic ++ ["--conn-username"; "dbuser";
                               "--conn-password"; "dbpass"; "--conn-embed"])
               (world_ok "pw" "id")) as (H & _);
    [vm_compute; reflexivity|].
  apply (H "dbuser" "dbpass"); [reflexivity | discriminate | reflexivity | discriminate].
Defined.

Example connection_credentials_run :
  map TSC.connection_credentials
    (publish_requests
       (trace (snd (main (argv_basic ++ ["--conn-username"; "dbuser";
                                         "--conn-password"; "dbpass"; "--conn-embed"])
                         (world_ok "pw" "id"))))) =
  [Some {| TSC.name := Some "dbuser"; TSC.conn_password := Some "dbpass";
           TSC.embed := true; TSC.oauth := false |}].
Proof. vm_compute. reflexivity. Qed.

(** The success messages, whatever the identifier is. *)
Lemma job_message_has_job_id id :
  Py.contains "Job ID:" ("Datasource published asynchronously. Job ID: " ++ id) = true.
Proof. reflexivity. Qed.

Lemma job_message_other id :
  Py.contains "Datasource ID:" ("Datasource published asynchronously. Job ID: " ++ id)
  = Py.contains "Datasource ID:" id.
Proof. reflexivity. Qed.

Lemma datasource_message_has_datasource_id id :
  Py.contains "Datasource ID:" ("Datasource published. Datasource ID: " ++ id) = true.
Proof. reflexivity. Qed.

Lemma datasource_message_other id :
  Py.contains "Job ID:" ("Datasource published. Datasource ID: " ++ id)
  = Py.contains "Job ID:" id.
Proof. reflexivity. Qed.

(** C2, as stated, fails: the identifier is printed as the server gave it,
    so a job identifier that itself reads "Datasource ID: ..." puts that
    text into the output of a successful run with [--as-job]. *)
Lemma job_id_may_contain_datasource_id :
  fst (main (argv_basic ++ ["--as-job"]) (world_ok "pw" "Datasource ID: 7")) = Ok tt /\
  supplied Argparse.d_as_job (argv_basic ++ ["--as-job"]) = true /\
  output_contains "Datasource ID:"
    (printed (snd (main (argv_basic ++ ["--as-job"])
                        (world_ok "pw" "Datasource ID: 7")))) = true.
Proof. vm_compute. repeat split; reflexivity. Qed.

(** C2, amended. Every successful run printed exactly one line, made of the
    identifier [id] the publish call returned: with [--as-job] it is
    "Datasource published asynchronously. Job ID: <id>", which contains
    "Job ID:" and contains "Datasource ID:" only if [id] does; without
    [--as-job] it is "Datasource published. Datasource ID: <id>", which
    contains "Datasource ID:" and contains "Job ID:" only if [id] does. *)
Theorem success_message argv w :
  fst (main argv w) = Ok tt ->
  exists id,
    published_ids w (trace (snd (main argv w))) = [id] /\
    map TSC.as_job (publish_requests (trace (snd (main argv w))))
      = [supplied Argparse.d_as_job argv] /\
    if supplied Argparse.d_as_job argv then
      printed (snd (main argv w))
        = [("Datasource published asynchronously. Job ID: " ++ id)%string] /\
      output_contains "Job ID:" (printed (snd (main argv w))) = true /\
      (Py.contains "Datasource ID:" id = false ->
       output_contains "Datasource ID:" (printed (snd (main argv w))) = false)
    else
      printed (snd (main argv w)) = [("Datasource published. Datasource ID: " ++ id)%string] /\
      output_contains "Datasource ID:" (printed (snd (main argv w))) = true /\
      (Py.contains "Job ID:" id = false ->
       output_contains "Job ID:" (printed (snd (main argv w))) = false).
Proof.
  destruct (Argparse.parse_args parser argv) as [args| |m] eqn:P.
  - destruct (parsed_supplied _ _ P) as (Ij & _). rewrite <- Ij.
    rewrite (main_parsed _ _ _ P).
    destruct (conn_mismatch args) eqn:C.
    + rewrite (run_mismatch _ _ C). discriminate.
    + rewrite (run_checked _ _ C).
      run_cases w args; intros H; try discriminate H; exists id;
        unfold published_ids, printed, output_contains;
        cbn [publish_requests flat_map app trace map TSC.as_job existsb];
        rewrite Hpub; (split; [reflexivity|]); (split; [reflexivity|]);
        (split; [reflexivity|]).
      * rewrite job_message_has_job_id, job_message_other.
        split; [reflexivity|]. intros ->. reflexivity.
      * rewrite datasource_message_has_datasource_id, datasource_message_other.
        split; [reflexivity|]. intros ->. reflexivity.
  - rewrite (main_help _ _ P). discriminate.
  - rewrite (main_usage _ _ _ P). discriminate.
Qed.

(** The end-to-end run prints the datasource message. *)
Lemma success_message_witness :
  exists id,
    published_ids (world_ok "pw" "lukedelaruelle")
      (trace (snd (main argv_basic (world_ok "pw" "lukedelaruelle")))) = [id] /\
    printed (snd (main argv_basic (world_ok "pw" "lukedelaruelle")))
      = [("Datasource published. Datasource ID: " ++ id)%string].
Proof.
  destruct (success_message argv_basic (world_ok "pw" "lukedelaruelle"))
    as (id & H1 & _ & H3).
  - vm_compute. reflexivity.
  - exists id. split; [exact H1|].
    change (supplied Argparse.d_as_job argv_basic) with false in H3.
    exact (proj1 H3).
Defined.

(** ** A store option takes the string that follows it *)

Section ConsumeFacts.

Variable acts : list Argparse.Argument.



(** The strings left over only grow. *)
Lemma consume_extras_grow n : forall items ns seen extras ns' seen' extras',
  length items <= n ->
  Argparse.consume acts items ns seen extras = Argparse.Parsed (ns', seen', extras') ->
  exists more, extras' = extras ++ more.
Proof.
  induction n as [|n IH]; intros items ns seen extras ns' seen' extras' Hlen.
  - destruct items; [|simpl in Hlen; lia]. cbn. intros [= _ _ <-].
    exists []. now rewrite app_nil_r.
  - destruct items as [|[s p] rest]; cbn [Argparse.consume].
    { intros [= _ _ <-]. exists []. now rewrite app_nil_r. }
    simpl in Hlen.
    assert (Hextra : forall r,
               Argparse.consume acts rest ns seen (extras ++ [s]) =
                 Argparse.Parsed (ns', seen', r) ->
               exists more, r = extras ++ more).
    { intros r H. apply IH in H; [|lia]. destruct H as [more ->].
      exists (s :: more). now rewrite <- app_assoc. }
    destruct p as [|[[[a|] os] ea]|]; try apply Hextra.
    destruct (match ea with
              | Some e => Argparse.explicit_args acts a os e
              | None => inr ([], Some (a, os))
              end) as [m|[ts [[a' os']|]]]; try discriminate.
    + destruct (Argparse.arg_count a').
      * destruct (Argparse.take_actions _ _) as [[ns1 seen1]| |m]; try discriminate.
        apply IH. lia.
      * destruct rest as [|[v [| |]] rest']; try discriminate.
        destruct (Argparse.take_actions _ _) as [[ns1 seen1]| |m]; try discriminate.
        apply IH. simpl in Hlen. lia.
    + destruct (Argparse.take_actions _ _) as [[ns1 seen1]| |m]; try discriminate.
      apply IH. lia.
Qed.

(** The string [--] is never consumed: it is left over. *)
Lemma consume_dash_left n : forall items ns seen extras ns' seen' extras' s,
  length items <= n ->
  In (s, Argparse.pat_dash) items ->
  Argparse.consume acts items ns seen extras = Argparse.Parsed (ns', seen', extras') ->
  extras' <> [].
Proof.
  induction n as [|n IH]; intros items ns seen extras ns' seen' extras' s Hlen Hin.
  - destruct items; [destruct Hin | simpl in Hlen; lia].
  - destruct items as [|[s0 p] rest]; [destruct Hin|].
    simpl in Hlen. cbn [Argparse.consume].
    assert (Hrest : In (s, Argparse.pat_dash) rest ->
                    forall ns1 seen1 extras1,
                      Argparse.consume acts rest ns1 seen1 extras1 =
                        Argparse.Parsed (ns', seen', extras') -> extras' <> []).
    { intros Hin' ns1 seen1 extras1. apply IH with (s := s); [lia | exact Hin']. }
    destruct Hin as [Heq|Hin].
    + injection Heq as -> ->. intros H.
      apply consume_extras_grow with (n := length rest) in H; [|lia].
      destruct H as [more ->]. destruct extras; discriminate.
    + destruct p as [|[[[a|] os] ea]|]; try (apply Hrest; exact Hin).
      destruct (match ea with
                | Some e => Argparse.explicit_args acts a os e
                | None => inr ([], Some (a, os))
                end) as [m|[ts [[a' os']|]]]; try discriminate.
      * destruct (Argparse.arg_count a').
        -- destruct (Argparse.take_actions _ _) as [[ns1 seen1]| |m]; try discriminate.
           apply Hrest. exact Hin.
        -- destruct rest as [|[v [| |]] rest']; try discriminate.
           destruct (Argparse.take_actions _ _) as [[ns1 seen1]| |m]; try discriminate.
           apply IH with (s := s); [simpl in Hlen; lia|].
           destruct Hin as [Heq|Hin]; [discriminate Heq | exact Hin].
      * destruct (Argparse.take_actions _ _) as [[ns1 seen1]| |m]; try discriminate.
        apply Hrest. exact Hin.
Qed.

Lemma arg_strings_pattern_dash argv : forall pats,
  Argparse.arg_strings_pattern acts argv = inr pats ->
  In "--" argv ->
  In ("--", Argparse.pat_dash) (combine argv pats).
Proof.
  induction argv as [|s rest IH]; intros pats; cbn [Argparse.arg_strings_pattern].
  - intros _ [].
  - destruct (String.eqb_spec s "--") as [->|Hne].
    + intros [= <-] _. left. reflexivity.
    + destruct (Argparse._parse_optional acts s) as [m|ot]; [discriminate|].
      destruct (Argparse.arg_strings_pattern acts rest) as [m|ps]; [discriminate|].
      intros [= <-] [Heq|Hin]; [congruence|].
      right. apply IH; [reflexivity | exact Hin].
Qed.


Lemma arg_strings_pattern_cons s rest :
  Argparse.arg_strings_pattern acts (s :: rest) =
  if s =? "--" then inr (Argparse.pat_dash :: map (fun _ => Argparse.pat_A) rest)
  else match Argparse._parse_optional acts s with
       | inl m => inl m
       | inr option_tuple =>
           match Argparse.arg_strings_pattern acts rest with
           | inl m => inl m
           | inr pats =>
               inr (match option_tuple with
                    | None => Argparse.pat_A
                    | Some t => Argparse.pat_O t
                    end :: pats)
           end
       end.
Proof. reflexivity. Qed.

Lemma combine_app_same {A B} (xs : list A) : forall (ps : list B) ys qs,
  length ps = length xs ->
  combine (xs ++ ys) (ps ++ qs) = combine xs ps ++ combine ys qs.
Proof.
  induction xs as [|x xs IH]; intros [|p ps] ys qs Hlen; simpl in *;
    try discriminate; [reflexivity|].
  f_equal. apply IH. lia.
Qed.

End ConsumeFacts.

(** A command line that contains [--] is not accepted: the script declares
    no positional argument that could take what follows. *)
Lemma dash_rejected argv args :
  In "--" argv -> Argparse.parse_args parser argv <> Argparse.Parsed args.
Proof.
  intros Hin H. unfold Argparse.parse_args, Argparse._parse_known_args in H.
  destruct (Argparse.arg_strings_pattern parser argv) as [m|pats] eqn:P;
    [discriminate|].
  destruct (Argparse.consume parser _ _ _ _) as [[[ns seen] extras]| |m] eqn:C;
    try discriminate.
  destruct (Argparse.required_actions parser seen); [|discriminate].
  destruct extras; [|discriminate].
  eapply (consume_dash_left parser _ _ _ _ _ _ _ _ "--" (le_n _)); [|exact C|reflexivity].
  apply (arg_strings_pattern_dash parser); assumption.
Qed.



(** The strings that attach [--] to the logging-level option, and some that
    do not. *)
Example attached_dash_strings :
  map (fun tok => no_attached_dash [tok])
    ["--logging-level=--"; "--log=--"; "-l--"; "-l=--"; "-al--";
     "--logging-level=debug"; "-ldebug"; "--logging-level"; "--"; "-l"; "debug"] =
  [false; false; false; false; false; true; true; true; true; true; true].
Proof. vm_compute. reflexivity. Qed.




(** ** More worked runs *)

(** A publish call that fails is still followed by the sign-out. *)
Example sign_out_after_failed_publish :
  map is_network
    (trace (snd (main argv_basic (world_publish_fails file_not_found)))) =
  [false; false; true; true; true; true] /\
  last (trace (snd (main argv_basic (world_publish_fails file_not_found)))) EvHelp
  = EvSignOut /\
  fst (main argv_basic (world_publish_fails file_not_found)) = Raise file_not_found.
Proof. vm_compute. repeat split; reflexivity. Qed.

(** A sign-in that fails opens no session: nothing is published and there
    is nothing to sign out from. *)
Example failed_sign_in :
  main argv_basic (world_sign_in_fails not_signed_in) =
  (Raise not_signed_in,
   {| trace :=
        [ EvGetpass "Password: "; EvBasicConfig Logging.ERROR;
          EvServer {| TSC.server_address := Some "https://host";
                      TSC.use_server_version := true |};
          EvSignIn {| TSC.server_address := Some "https://host";
                      TSC.use_server_version := true |}
                   {| TSC.username := Some "alice"; TSC.password := "secret";
                      TSC.site := None |} ];
      signed_in := false;
      root_level := Logging.ERROR |}).
Proof. vm_compute. reflexivity. Qed.

(** The value check of the logging-level option turns any other value into
    a usage error. *)
Example invalid_logging_level :
  main (argv_basic ++ ["--logging-level"; "warning"]) (world_ok "pw" "id") =
  (SystemExit 2,
   usage_state
     (Argparse.invalid_choice
        (add_argument ["--logging-level"; "-l"] Argparse.d_logging_level
           Argparse.store false (Some ["debug"; "info"; "error"]) (Some "error"))
        "warning")).
Proof. vm_compute. reflexivity. Qed.

(** * Further properties *)

(** ** How the parsing loop composes *)

Section ComposeFacts.

Variable acts : list Argparse.Argument.

(** Consuming a command line cut before an option string: first the part
    before, then the part from the option string on. *)
Lemma consume_app n : forall pre tail ns seen extras,
  length pre <= n ->
  option_headed tail ->
  Argparse.consume acts (pre ++ tail) ns seen extras =
  match Argparse.consume acts pre ns seen extras with
  | Argparse.Parsed (ns1, seen1, extras1) => Argparse.consume acts tail ns1 seen1 extras1
  | Argparse.HelpExit => Argparse.HelpExit
  | Argparse.UsageError m => Argparse.UsageError m
  end.
Proof.
  induction n as [|n IH]; intros pre tail ns seen extras Hlen Htail.
  - destruct pre; [reflexivity | simpl in Hlen; lia].
  - destruct pre as [|[s0 p0] pre']; [reflexivity|].
    simpl in Hlen. cbn [app Argparse.consume].
    destruct p0 as [|[[[a0|] os0] ea0]|];
      try (apply IH; [lia | exact Htail]).
    destruct (match ea0 with
              | Some e => Argparse.explicit_args acts a0 os0 e
              | None => inr ([], Some (a0, os0))
              end) as [m|[ts [[a' os']|]]]; [reflexivity| |].
    + destruct (Argparse.arg_count a').
      * destruct (Argparse.take_actions _ _) as [[ns1 seen1]| |m];
          [apply IH; [lia | exact Htail] | reflexivity | reflexivity].
      * destruct pre' as [|[v0 p0'] pre''].
        -- cbn [app]. destruct tail as [|[s1 [| |]] tail'];
             [reflexivity | destruct Htail | reflexivity | reflexivity].
        -- cbn [app]. destruct p0'; try reflexivity.
           destruct (Argparse.take_actions _ _) as [[ns1 seen1]| |m];
             [apply IH; [simpl in Hlen; lia | exact Htail] | reflexivity | reflexivity].
    + destruct (Argparse.take_actions _ _) as [[ns1 seen1]| |m];
        [apply IH; [lia | exact Htail] | reflexivity | reflexivity].
Qed.

(** Two ways to go on that the loop cannot tell apart give the same result
    after any common beginning. *)
Lemma consume_congr pre tail1 tail2 ns seen extras :
  option_headed tail1 -> option_headed tail2 ->
  (forall ns1 seen1 extras1,
     Argparse.consume acts tail1 ns1 seen1 extras1 =
     Argparse.consume acts tail2 ns1 seen1 extras1) ->
  Argparse.consume acts (pre ++ tail1) ns seen extras =
  Argparse.consume acts (pre ++ tail2) ns seen extras.
Proof.
  intros H1 H2 Heq.
  rewrite (consume_app (length pre)) by (auto || exact H1).
  rewrite (consume_app (length pre) pre tail2) by (auto || exact H2).
  destruct (Argparse.consume acts pre ns seen extras) as [[[ns1 seen1] ex1]| |m];
    [apply Heq | reflexivity | reflexivity].
Qed.

(** The pattern of a command line cut in two after a part without [--]. *)
Lemma arg_strings_pattern_app_exact xs ys :
  ~ In "--" xs ->
  Argparse.arg_strings_pattern acts (xs ++ ys) =
  match Argparse.arg_strings_pattern acts xs with
  | inl m => inl m
  | inr p1 =>
      match Argparse.arg_strings_pattern acts ys with
      | inl m => inl m
      | inr p2 => inr (p1 ++ p2)
      end
  end.
Proof.
  induction xs as [|s rest IH]; intros Hno.
  - cbn [app Argparse.arg_strings_pattern].
    destruct (Argparse.arg_strings_pattern acts ys); reflexivity.
  - cbn [app]. rewrite !arg_strings_pattern_cons.
    destruct (String.eqb_spec s "--") as [->|Hne].
    { exfalso. apply Hno. left. reflexivity. }
    destruct (Argparse._parse_optional acts s) as [m|ot]; [reflexivity|].
    rewrite IH by (intros Hin; apply Hno; right; exact Hin).
    destruct (Argparse.arg_strings_pattern acts rest) as [m|p1]; [reflexivity|].
    destruct (Argparse.arg_strings_pattern acts ys) as [m|p2]; reflexivity.
Qed.

(** A store action given its argument in the option string takes it
    whole. *)
Lemma explicit_args_store a os e :
  Argparse.action a = Argparse.store ->
  Argparse.explicit_args acts a os e = inr ([(a, [e], os)], None).
Proof.
  intros Hstore.
  destruct e; cbn [Argparse.explicit_args]; unfold Argparse.arg_count;
    rewrite Hstore; reflexivity.
Qed.

End ComposeFacts.

(** ** Strings and lists *)

Lemma startswith_refl s : Py.startswith s s = true.
Proof.
  unfold Py.startswith. induction s as [|c s IH]; [reflexivity|].
  cbn [String.prefix]. destruct (ascii_dec c c); [exact IH | contradiction].
Qed.

Lemma startswith_dash s :
  Py.startswith s "-" = true -> exists rest, s = String "-" rest.
Proof.
  unfold Py.startswith. destruct s as [|c rest]; cbn [String.prefix]; [discriminate|].
  destruct (ascii_dec "-" c) as [<-|]; [|discriminate].
  intros _. exists rest. reflexivity.
Qed.

Lemma startswith_dash_dash s :
  Py.startswith s "--" = true -> exists rest, s = String "-" (String "-" rest).
Proof.
  unfold Py.startswith. destruct s as [|c0 [|c1 rest]]; cbn [String.prefix];
    try discriminate.
  - destruct (ascii_dec "-" c0); discriminate.
  - destruct (ascii_dec "-" c0) as [<-|]; [|discriminate].
    destruct (ascii_dec "-" c1) as [<-|]; [|discriminate].
    intros _. exists rest. reflexivity.
Qed.

Lemma plain_is_argument acts s :
  plain s = true ->
  s <> "--" /\ Argparse._parse_optional acts s = inr None.
Proof.
  unfold plain, Py.startswith. destruct s as [|c rest]; cbn [String.prefix negb].
  - intros _. split; [discriminate | reflexivity].
  - destruct (ascii_dec "-" c) as [<-|Hne]; [destruct rest; discriminate|]. intros _.
    split.
    + intros [= Hc _]. apply Hne. now rewrite Hc.
    + cbn [Argparse._parse_optional]. unfold Argparse.is_prefix_char.
      destruct (Ascii.eqb_spec c "-") as [->|_]; [contradiction | reflexivity].
Qed.

Lemma split1_absent s :
  Py.contains "=" s = false -> Py.split1 "=" s = None.
Proof.
  induction s as [|c s IH]; [reflexivity|].
  cbn [Py.contains Py.split1 String.prefix].
  destruct (ascii_dec "=" c) as [<-|Hne].
  - destruct s; discriminate.
  - cbn [orb]. intros H. rewrite (IH H).
    destruct (Ascii.eqb_spec c "=") as [->|_]; [contradiction | reflexivity].
Qed.

Lemma filter_map_fst {A B} (f : A -> bool) (l : list (A * B)) :
  filter f (map fst l) = map fst (filter (fun ab => f (fst ab)) l).
Proof.
  induction l as [|[a b] l IH]; [reflexivity|].
  cbn [map filter fst]. destruct (f a); cbn [map fst]; now rewrite IH.
Qed.

Lemma flat_map_if {A B} (f : A -> bool) (g : A -> B) (l : list A) :
  flat_map (fun a => if f a then [g a] else []) l = map g (filter f l).
Proof.
  induction l as [|a l IH]; [reflexivity|].
  cbn [flat_map filter]. destruct (f a); cbn [map app]; now rewrite IH.
Qed.

(** ** Spellings of an option *)

Section SpellingFacts.

Variable acts : list Argparse.Argument.

(** An abbreviation that fits one option string only is read as that
    option string. *)
Lemma abbreviation_parsed tok long :
  abbreviates acts tok long = true ->
  exists a,
    Argparse.find_option acts long = Some a /\
    Argparse._parse_optional acts tok = inr (Some (Some a, long, None)) /\
    Argparse._parse_optional acts long = inr (Some (Some a, long, None)).
Proof.
  unfold abbreviates. intros H.
  apply andb_prop in H. destruct H as [H Hfilter].
  apply andb_prop in H. destruct H as [Hdd Heq].
  apply negb_true_iff in Heq. apply split1_absent in Heq.
  apply startswith_dash_dash in Hdd. destruct Hdd as [rest ->].
  rewrite filter_map_fst in Hfilter.
  set (L := Argparse._option_string_actions acts) in *.
  destruct (filter _ L) as [|[os a] [|? ?]] eqn:F; cbn [map fst] in Hfilter;
    try discriminate.
  apply String.eqb_eq in Hfilter. subst os.
  assert (Hin : In (long, a) (filter (fun ab : string * Argparse.Argument =>
                                        Py.startswith (fst ab) (String "-" (String "-" rest))) L))
    by (rewrite F; left; reflexivity).
  apply filter_In in Hin. destruct Hin as [HinL Hstart]. cbn [fst] in Hstart.
  assert (Hunique : forall s b, In (s, b) L ->
                      Py.startswith s (String "-" (String "-" rest)) = true ->
                      s = long /\ b = a).
  { intros s b Hsb Hs.
    assert (Hf : In (s, b) (filter (fun ab : string * Argparse.Argument =>
                                      Py.startswith (fst ab) (String "-" (String "-" rest))) L))
      by (apply filter_In; split; assumption).
    rewrite F in Hf. destruct Hf as [[= -> ->]|[]]. split; reflexivity. }
  destruct (startswith_dash_dash long) as [lrest Hlong].
  { revert Hstart. unfold Py.startswith.
    destruct long as [|d0 [|d1 lr]]; cbn [String.prefix]; try discriminate.
    - destruct (ascii_dec "-" d0); discriminate.
    - destruct (ascii_dec "-" d0) as [<-|]; [|discriminate].
      destruct (ascii_dec "-" d1) as [<-|]; [|discriminate].
      intros _. destruct lr; reflexivity. }
  assert (Hfind : Argparse.find_option acts long = Some a).
  { unfold Argparse.find_option. fold L.
    destruct (find (fun sa => fst sa =? long) L) as [[s b]|] eqn:E.
    - apply find_some in E. destruct E as [Hsb Hs]. cbn [fst] in Hs.
      apply String.eqb_eq in Hs. subst s.
      destruct (Hunique _ _ Hsb Hstart) as [_ ->]. reflexivity.
    - exfalso. apply (find_none _ _ E) in HinL. cbn [fst] in HinL.
      rewrite String.eqb_refl in HinL. discriminate. }
  exists a. split; [exact Hfind|]. split.
  - cbn [Argparse._parse_optional Argparse.is_prefix_char negb].
    change (Ascii.eqb "-" "-") with true. cbn [negb].
    destruct (Argparse.find_option acts (String "-" (String "-" rest))) as [a0|] eqn:E0.
    + unfold Argparse.find_option in E0. fold L in E0.
      destruct (find _ L) as [[s b]|] eqn:E; [|discriminate].
      injection E0 as ->. apply find_some in E. destruct E as [Hsb Hs].
      cbn [fst] in Hs. apply String.eqb_eq in Hs. subst s.
      destruct (Hunique _ _ Hsb (startswith_refl _)) as [<- ->]. reflexivity.
    + rewrite Heq.
      unfold Argparse._get_option_tuples. fold L.
      change (Argparse.is_prefix_char "-") with true. cbn [andb].
      rewrite Heq.
      rewrite (flat_map_if
                 (fun sa : string * Argparse.Argument =>
                    Py.startswith (fst sa) (String "-" (String "-" rest)))
                 (fun sa => (Some (snd sa), fst sa, @None string))).
      rewrite F. reflexivity.
  - rewrite Hlong. cbn [Argparse._parse_optional].
    change (negb (Argparse.is_prefix_char "-")) with false. cbn iota.
    rewrite <- Hlong, Hfind. reflexivity.
Qed.

End SpellingFacts.

Section CongruenceFacts.

Variable acts : list Argparse.Argument.

(** Two ends of a command line that the parser classifies and consumes
    alike give the same parse after any beginning without [--]. *)
Lemma parse_args_congr pre t1 t2 :
  ~ In "--" pre ->
  match Argparse.arg_strings_pattern acts t1, Argparse.arg_strings_pattern acts t2 with
  | inl m1, inl m2 => m1 = m2
  | inr q1, inr q2 =>
      option_headed (combine t1 q1) /\ option_headed (combine t2 q2) /\
      forall ns seen extras,
        Argparse.consume acts (combine t1 q1) ns seen extras =
        Argparse.consume acts (combine t2 q2) ns seen extras
  | _, _ => False
  end ->
  Argparse.parse_args acts (pre ++ t1) = Argparse.parse_args acts (pre ++ t2).
Proof.
  intros Hno H.
  unfold Argparse.parse_args, Argparse._parse_known_args.
  rewrite !arg_strings_pattern_app_exact by exact Hno.
  destruct (Argparse.arg_strings_pattern acts pre) as [m|p1] eqn:P1; [reflexivity|].
  apply arg_strings_pattern_length in P1.
  destruct (Argparse.arg_strings_pattern acts t1) as [m1|q1],
           (Argparse.arg_strings_pattern acts t2) as [m2|q2];
    try contradiction.
  - subst m2. reflexivity.
  - destruct H as (H1 & H2 & Heq).
    rewrite !combine_app_same by exact P1.
    rewrite (consume_congr acts _ _ _ _ _ _ H1 H2 Heq). reflexivity.
Qed.

(** Two strings read as the same option, without an attached argument, are
    interchangeable. *)
Lemma same_option_parse pre tok1 tok2 a os1 os2 rest :
  ~ In "--" pre -> tok1 <> "--" -> tok2 <> "--" ->
  Argparse._parse_optional acts tok1 = inr (Some (Some a, os1, None)) ->
  Argparse._parse_optional acts tok2 = inr (Some (Some a, os2, None)) ->
  Argparse.parse_args acts (pre ++ tok1 :: rest) =
  Argparse.parse_args acts (pre ++ tok2 :: rest).
Proof.
  intros Hno N1 N2 P1 P2. apply parse_args_congr; [exact Hno|].
  rewrite !arg_strings_pattern_cons.
  destruct (String.eqb_spec tok1 "--"); [contradiction|].
  destruct (String.eqb_spec tok2 "--"); [contradiction|].
  rewrite P1, P2.
  destruct (Argparse.arg_strings_pattern acts rest) as [m|q]; [reflexivity|].
  cbn [combine option_headed]. split; [exact I|]. split; [exact I|].
  intros ns seen extras. reflexivity.
Qed.

(** [--opt=value] is [--opt value] for a store action and a value that does
    not look like an option. *)
Lemma attached_value_parse pre tok long a v rest :
  ~ In "--" pre -> tok <> "--" -> long <> "--" ->
  Argparse.action a = Argparse.store ->
  Argparse._parse_optional acts tok = inr (Some (Some a, long, Some v)) ->
  Argparse._parse_optional acts long = inr (Some (Some a, long, None)) ->
  plain v = true ->
  Argparse.parse_args acts (pre ++ tok :: rest) =
  Argparse.parse_args acts (pre ++ long :: v :: rest).
Proof.
  intros Hno N1 N2 Hstore P1 P2 Hv. apply parse_args_congr; [exact Hno|].
  destruct (plain_is_argument acts v Hv) as [Nv Pv].
  rewrite !arg_strings_pattern_cons.
  destruct (String.eqb_spec tok "--"); [contradiction|].
  destruct (String.eqb_spec long "--"); [contradiction|].
  destruct (String.eqb_spec v "--"); [contradiction|].
  rewrite P1, P2, Pv.
  destruct (Argparse.arg_strings_pattern acts rest) as [m|q]; [reflexivity|].
  cbn [combine option_headed]. split; [exact I|]. split; [exact I|].
  intros ns seen extras. cbn [Argparse.consume].
  rewrite (explicit_args_store acts a long v Hstore).
  unfold Argparse.arg_count. rewrite Hstore. reflexivity.
Qed.

End CongruenceFacts.

Lemma main_congr argv1 argv2 w :
  Argparse.parse_args parser argv1 = Argparse.parse_args parser argv2 ->
  main argv1 w = main argv2 w.
Proof.
  intros H. unfold main, parse_args. rewrite H. reflexivity.
Qed.

(** Every option string the script declares is read as its own option. *)
Lemma declared_option_parsed a s :
  In a parser -> In s (Argparse.option_strings a) ->
  s <> "--" /\ Argparse._parse_optional parser s = inr (Some (Some a, s, None)).
Proof.
  intros Ha Hs. unfold parser in Ha. simpl in Ha.
  repeat (destruct Ha as [<-|Ha]); try contradiction;
    simpl in Hs; repeat (destruct Hs as [<-|Hs]); try contradiction;
    (split; [discriminate | vm_compute; reflexivity]).
Qed.

(** X7. The spellings of an option are interchangeable: replacing an option
    string by another option string of the same [add_argument] call (the
    short [-s] for the long [--server], and so on), anywhere before a [--],
    gives the same run. *)
Theorem option_spellings_interchangeable a s1 s2 pre rest w :
  In a parser ->
  In s1 (Argparse.option_strings a) ->
  In s2 (Argparse.option_strings a) ->
  ~ In "--" pre ->
  main (pre ++ s1 :: rest) w = main (pre ++ s2 :: rest) w.
Proof.
  intros Ha H1 H2 Hno. apply main_congr.
  destruct (declared_option_parsed a s1 Ha H1) as [N1 P1].
  destruct (declared_option_parsed a s2 Ha H2) as [N2 P2].
  eapply same_option_parse; eassumption.
Qed.

(** Spelled [-s ... -u ... -f ... -a], the end-to-end command line with
    [--as-job] runs as spelled with the long names. *)
Lemma option_spellings_interchangeable_witness :
  main (["-s"; "https://host"; "-u"; "alice"; "-f"; "ds.tdsx"] ++ "-a" :: [])
       (world_ok "pw" "id") =
  main (["-s"; "https://host"; "-u"; "alice"; "-f"; "ds.tdsx"] ++ "--as-job" :: [])
       (world_ok "pw" "id").
Proof.
  apply (option_spellings_interchangeable
           (add_argument ["--as-job"; "-a"] Argparse.d_as_job Argparse.store_true
              false None None)).
  - unfold parser. simpl. auto 10.
  - simpl. auto.
  - simpl. auto.
  - simpl. intros H. repeat (destruct H as [H|H]; [discriminate H|]). exact H.
Defined.

(** X8. Abbreviations are accepted: a string that starts with [--], has no
    [=] and is the beginning of exactly one option string of the parser
    stands for that option string, anywhere before a [--]. *)
Theorem unique_abbreviation_accepted tok long pre rest w :
  abbreviates parser tok long = true ->
  ~ In "--" pre ->
  main (pre ++ tok :: rest) w = main (pre ++ long :: rest) w.
Proof.
  intros Habbr Hno. apply main_congr.
  destruct (abbreviation_parsed parser tok long Habbr) as (a & Hfind & Ptok & Plong).
  eapply same_option_parse; [exact Hno | | | exact Ptok | exact Plong].
  - intros ->. vm_compute in Habbr. discriminate Habbr.
  - intros ->. vm_compute in Hfind. discriminate Hfind.
Qed.

(** [--conn-u] stands for [--conn-username]. *)
Lemma unique_abbreviation_accepted_witness :
  main (argv_basic ++ "--conn-u" :: ["dbuser"; "--conn-password"; "dbpass"])
       (world_ok "pw" "id") =
  main (argv_basic ++ "--conn-username" :: ["dbuser"; "--conn-password"; "dbpass"])
       (world_ok "pw" "id").
Proof.
  apply unique_abbreviation_accepted.
  - vm_compute. reflexivity.
  - simpl. intros H. repeat (destruct H as [H|H]; [discriminate H|]). exact H.
Defined.

(** A long option string of a store action with [=value] attached is read
    as that option with the explicit argument [value]. *)
Lemma attached_value_parsed a long v :
  In a parser -> Argparse.action a = Argparse.store ->
  In long (Argparse.option_strings a) -> Py.startswith long "--" = true ->
  (long ++ "=" ++ v)%string <> "--" /\
  Argparse._parse_optional parser (long ++ "=" ++ v) = inr (Some (Some a, long, Some v)).
Proof.
  intros Ha Hstore Hs Hlong. unfold parser in Ha. simpl in Ha.
  repeat (destruct Ha as [<-|Ha]); try contradiction; try discriminate Hstore;
    simpl in Hs; repeat (destruct Hs as [<-|Hs]); try contradiction;
    try discriminate Hlong;
    (split; [discriminate | reflexivity]).
Qed.

(** X9. For every option that takes a value, [--option=value] is the same
    as [--option value] when the value does not start with [-], anywhere
    before a [--]. *)
Theorem attached_value_accepted a long v pre rest w :
  In a parser -> Argparse.action a = Argparse.store ->
  In long (Argparse.option_strings a) -> Py.startswith long "--" = true ->
  plain v = true ->
  ~ In "--" pre ->
  main (pre ++ (long ++ "=" ++ v)%string :: rest) w =
  main (pre ++ long :: v :: rest) w.
Proof.
  intros Ha Hstore Hs Hlong Hv Hno. apply main_congr.
  destruct (attached_value_parsed a long v Ha Hstore Hs Hlong) as [N1 P1].
  destruct (declared_option_parsed a long Ha Hs) as [N2 P2].
  eapply attached_value_parse; eassumption.
Qed.

(** [--filepath=ds.tdsx] is [--filepath ds.tdsx]. *)
Lemma attached_value_accepted_witness :
  main (["-s"; "https://host"; "-u"; "alice"] ++ "--filepath=ds.tdsx" :: [])
       (world_ok "pw" "id") =
  main (["-s"; "https://host"; "-u"; "alice"] ++ "--filepath" :: "ds.tdsx" :: [])
       (world_ok "pw" "id").
Proof.
  apply (attached_value_accepted
           (add_argument ["--filepath"; "-f"] Argparse.d_filepath Argparse.store
              true None None) "--filepath" "ds.tdsx").
  - unfold parser. simpl. auto 10.
  - reflexivity.
  - simpl. auto.
  - reflexivity.
  - reflexivity.
  - simpl. intros H. repeat (destruct H as [H|H]; [discriminate H|]). exact H.
Defined.

(** ** The last value, and strings that are refused *)

Lemma attribute_stored a ns v :
  In a parser -> Argparse.action a = Argparse.store ->
  attribute (Argparse.dest a) (Argparse.setattr_store ns (Argparse.dest a) v) = Some v.
Proof.
  intros Ha Hstore. unfold parser in Ha. simpl in Ha.
  repeat (destruct Ha as [<-|Ha]); try contradiction; try discriminate Hstore;
    reflexivity.
Qed.

(** X10. The value at the end of the command line wins: when an accepted
    command line ends with an option string of a value-taking option and a
    string [v], the attribute of that option is [v], whatever was given for
    it before. *)
Theorem last_value_wins a flag v pre args :
  In a parser -> Argparse.action a = Argparse.store ->
  In flag (Argparse.option_strings a) ->
  Argparse.parse_args parser (pre ++ [flag; v]) = Argparse.Parsed args ->
  attribute (Argparse.dest a) args = Some v.
Proof.
  intros Ha Hstore Hs H.
  destruct (declared_option_parsed a flag Ha Hs) as [N P].
  destruct (in_dec string_dec "--" pre) as [Hin|Hno].
  { exfalso. eapply dash_rejected; [|exact H]. apply in_or_app. left. exact Hin. }
  unfold Argparse.parse_args, Argparse._parse_known_args in H.
  rewrite arg_strings_pattern_app_exact in H by exact Hno.
  destruct (Argparse.arg_strings_pattern parser pre) as [m|p1] eqn:P1; [discriminate|].
  apply arg_strings_pattern_length in P1.
  rewrite arg_strings_pattern_cons in H.
  destruct (String.eqb_spec flag "--"); [contradiction|]. rewrite P in H.
  destruct (Argparse.arg_strings_pattern parser [v]) as [m|q] eqn:Pv; [discriminate|].
  apply arg_strings_pattern_length in Pv.
  destruct q as [|pv [|? ?]]; try discriminate Pv.
  rewrite combine_app_same in H by exact P1. cbn [combine] in H.
  rewrite (consume_app parser (length (combine pre p1))) in H by (auto; exact I).
  destruct (Argparse.consume parser (combine pre p1) _ _ _)
    as [[[ns1 seen1] ex1]| |m]; try discriminate.
  cbn [Argparse.consume] in H. unfold Argparse.arg_count in H. rewrite Hstore in H.
  destruct pv; try discriminate H.
  cbn [app Argparse.take_actions] in H. unfold Argparse.take_action in H.
  rewrite Hstore in H.
  destruct (Argparse._check_value a v); [|discriminate H].
  cbv beta iota in H.
  destruct (Argparse.required_actions parser _); [|discriminate H].
  destruct ex1; [|discriminate H].
  injection H as <-. apply attribute_stored; assumption.
Qed.

(** [--site] given twice: the second value is the one kept. *)
Lemma last_value_wins_witness :
  attribute Argparse.d_site
    {| Argparse.server := Some "https://host"; Argparse.site := Some "sales";
       Argparse.username := Some "alice"; Argparse.filepath := Some "ds.tdsx";
       Argparse.logging_level := Some "error"; Argparse.as_job := false;
       Argparse.conn_username := None; Argparse.conn_password := None;
       Argparse.conn_embed := false; Argparse.conn_oauth := false |} = Some "sales".
Proof.
  apply (last_value_wins
           (add_argument ["--site"; "-i"] Argparse.d_site Argparse.store false None None)
           "-i" "sales" (argv_basic ++ ["--site"; "marketing"])).
  - unfold parser. simpl. auto 10.
  - reflexivity.
  - simpl. auto.
  - vm_compute. reflexivity.
Defined.

(** A run the parser does not accept ends in the parser: with the usage
    error and status 2, or with the help text and status 0. *)
Lemma refused_run argv w :
  (forall args, Argparse.parse_args parser argv <> Argparse.Parsed args) ->
  (exists m, main argv w = (SystemExit 2, usage_state m)) \/
  main argv w = (SystemExit 0, {| trace := [EvHelp]; signed_in := false;
                                  root_level := Logging.WARNING |}).
Proof.
  intros H. destruct (Argparse.parse_args parser argv) as [args| |m] eqn:P.
  - exfalso. apply (H args). reflexivity.
  - right. apply main_help. exact P.
  - left. exists m. apply main_usage. exact P.
Qed.

Lemma plain_first_rejected s rest args :
  plain s = true ->
  Argparse.parse_args parser (s :: rest) <> Argparse.Parsed args.
Proof.
  intros Hs H. destruct (plain_is_argument parser s Hs) as [N P].
  unfold Argparse.parse_args, Argparse._parse_known_args in H.
  rewrite arg_strings_pattern_cons in H.
  destruct (String.eqb_spec s "--"); [contradiction|]. rewrite P in H.
  destruct (Argparse.arg_strings_pattern parser rest) as [m|q]; [discriminate|].
  cbn [combine Argparse.consume] in H.
  destruct (Argparse.consume parser _ _ _ _) as [[[ns1 seen1] ex1]| |m] eqn:C;
    try discriminate.
  apply consume_extras_grow with (n := length (combine rest q)) in C; [|apply le_n].
  destruct C as [more ->].
  destruct (Argparse.required_actions parser _); [|discriminate H].
  discriminate H.
Qed.

(** X12. The script takes no positional argument: a command line that
    contains [--], or that starts with a string that does not begin with
    [-], is refused by the parser.  The run ends there, with the usage
    error and status 2 (or with the help text and status 0 when help is
    asked for on the line): no prompt, no request. *)
Theorem stray_argument_refused argv w :
  In "--" argv \/ (exists s rest, argv = s :: rest /\ plain s = true) ->
  (exists m, main argv w = (SystemExit 2, usage_state m)) \/
  main argv w = (SystemExit 0, {| trace := [EvHelp]; signed_in := false;
                                  root_level := Logging.WARNING |}).
Proof.
  intros H. apply refused_run. intros args.
  destruct H as [Hdash|(s & rest & -> & Hs)].
  - apply dash_rejected. exact Hdash.
  - apply plain_first_rejected. exact Hs.
Qed.

(** A file name given without [-f]. *)
Lemma stray_argument_refused_witness :
  (exists m, main ("ds.tdsx" :: argv_basic) (world_ok "pw" "id")
             = (SystemExit 2, usage_state m)) \/
  main ("ds.tdsx" :: argv_basic) (world_ok "pw" "id")
  = (SystemExit 0, {| trace := [EvHelp]; signed_in := false;
                      root_level := Logging.WARNING |}).
Proof.
  apply stray_argument_refused. right. exists "ds.tdsx", argv_basic.
  split; reflexivity.
Defined.

Section AmbiguityFacts.

Variable acts : list Argparse.Argument.

Lemma ambiguous_parsed tok :
  ambiguous acts tok = true ->
  exists m, Argparse._parse_optional acts tok = inl m.
Proof.
  unfold ambiguous. intros H.
  apply andb_prop in H. destruct H as [H Hlen].
  apply andb_prop in H. destruct H as [H Hmem].
  apply andb_prop in H. destruct H as [Hdd Heq].
  apply negb_true_iff in Heq. apply split1_absent in Heq.
  apply negb_true_iff in Hmem.
  apply startswith_dash_dash in Hdd. destruct Hdd as [rest ->].
  set (L := Argparse._option_string_actions acts) in *.
  assert (Hfind : Argparse.find_option acts (String "-" (String "-" rest)) = None).
  { unfold Argparse.find_option. fold L.
    destruct (find _ L) as [[s b]|] eqn:E; [|reflexivity].
    apply find_some in E. destruct E as [Hsb Hs]. cbn [fst] in Hs.
    apply String.eqb_eq in Hs. subst s.
    assert (Hm : Py.mem (String "-" (String "-" rest)) (map fst L) = true).
    { unfold Py.mem. apply existsb_exists. exists (String "-" (String "-" rest)).
      split; [|apply String.eqb_refl].
      apply in_map_iff. exists (String "-" (String "-" rest), b). auto. }
    rewrite Hm in Hmem. discriminate. }
  cbn [Argparse._parse_optional].
  change (negb (Argparse.is_prefix_char "-")) with false. cbn iota.
  rewrite Hfind, Heq.
  unfold Argparse._get_option_tuples. fold L.
  change (Argparse.is_prefix_char "-") with true. cbn [andb].
  rewrite Heq.
  rewrite (flat_map_if
             (fun sa : string * Argparse.Argument =>
                Py.startswith (fst sa) (String "-" (String "-" rest)))
             (fun sa => (Some (snd sa), fst sa, @None string))).
  rewrite filter_map_fst, length_map in Hlen.
  destruct (filter _ L) as [|t1 [|t2 ts]]; try discriminate Hlen.
  cbn [map]. eexists. reflexivity.
Qed.

Lemma arg_strings_pattern_error argv tok m :
  ~ In "--" argv -> In tok argv ->
  Argparse._parse_optional acts tok = inl m ->
  exists m', Argparse.arg_strings_pattern acts argv = inl m'.
Proof.
  induction argv as [|s rest IH]; intros Hno Hin P; [destruct Hin|].
  rewrite arg_strings_pattern_cons.
  destruct (String.eqb_spec s "--") as [->|_].
  { exfalso. apply Hno. left. reflexivity. }
  destruct (Argparse._parse_optional acts s) as [m0|ot] eqn:E; [eexists; reflexivity|].
  destruct Hin as [->|Hin]; [congruence|].
  destruct IH as [m' ->]; [intros H; apply Hno; right; exact H | exact Hin | exact P |].
  eexists. reflexivity.
Qed.

End AmbiguityFacts.

(** X13. An ambiguous abbreviation is refused wherever it stands: a command
    line with a string such as [--conn], which is the beginning of several
    option strings, is not accepted; the run ends in the parser with the
    usage error and status 2 (or with the help text and status 0), before
    the prompt. *)
Theorem ambiguous_abbreviation_refused argv tok w :
  In tok argv -> ambiguous parser tok = true ->
  (exists m, main argv w = (SystemExit 2, usage_state m)) \/
  main argv w = (SystemExit 0, {| trace := [EvHelp]; signed_in := false;
                                  root_level := Logging.WARNING |}).
Proof.
  intros Hin Hamb. apply refused_run. intros args.
  destruct (in_dec string_dec "--" argv) as [Hdash|Hno].
  - apply dash_rejected. exact Hdash.
  - destruct (ambiguous_parsed parser tok Hamb) as [m P].
    destruct (arg_strings_pattern_error parser argv tok m Hno Hin P) as [m' E].
    unfold Argparse.parse_args, Argparse._parse_known_args. rewrite E. discriminate.
Qed.

(** [--conn] could be any of the four connection options. *)
Lemma ambiguous_abbreviation_refused_witness :
  (exists m, main (argv_basic ++ ["--conn"; "dbuser"]) (world_ok "pw" "id")
             = (SystemExit 2, usage_state m)) \/
  main (argv_basic ++ ["--conn"; "dbuser"]) (world_ok "pw" "id")
  = (SystemExit 0, {| trace := [EvHelp]; signed_in := false;
                      root_level := Logging.WARNING |}).
Proof.
  apply (ambiguous_abbreviation_refused _ "--conn").
  - simpl. auto 10.
  - vm_compute. reflexivity.
Defined.

(** ** The requests of the script *)

(** X1. The script never contacts the server with a required value
    missing: in every run, the server handle and the sign-in request carry
    a server address, the sign-in request carries a user name and the
    publish request carries a file path. *)
Theorem requests_have_required_values argv w :
  Forall (fun ev =>
            match ev with
            | EvServer srv => is_some (TSC.server_address srv) = true
            | EvSignIn srv auth =>
                is_some (TSC.server_address srv) = true /\
                is_some (TSC.username auth) = true
            | EvPublish r => is_some (TSC.file_path r) = true
            | _ => True
            end)
    (trace (snd (main argv w))).
Proof.
  destruct (Argparse.parse_args parser argv) as [args| |m] eqn:P.
  - destruct (parse_args_required _ _ P) as (Hs & Hu & Hf).
    rewrite (main_parsed _ _ _ P).
    destruct (conn_mismatch args) eqn:C.
    + rewrite (run_mismatch _ _ C). repeat constructor.
    + rewrite (run_checked _ _ C).
      run_cases w args; repeat constructor; assumption.
  - rewrite (main_help _ _ P). repeat constructor.
  - rewrite (main_usage _ _ _ P). repeat constructor.
Qed.

(** X2. The requests carry the arguments as they were given: the server
    handle is made for the [--server] address with [use_server_version]
    set; the sign-in request carries the [--username] value, the password
    typed at the prompt and the [--site] value, which is [None] when
    [--site] is not supplied; the publish request carries the [--filepath]
    value and asks for a job exactly when [--as-job] is supplied. *)
Theorem requests_carry_arguments argv w args :
  Argparse.parse_args parser argv = Argparse.Parsed args ->
  Forall (fun ev =>
            match ev with
            | EvServer srv =>
                srv = {| TSC.server_address := Argparse.server args;
                         TSC.use_server_version := true |}
            | EvSignIn srv auth =>
                srv = {| TSC.server_address := Argparse.server args;
                         TSC.use_server_version := true |} /\
                TSC.username auth = Argparse.username args /\
                getpass_reply w = inr (TSC.password auth) /\
                TSC.site auth = Argparse.site args /\
                (supplied Argparse.d_site argv = false -> TSC.site auth = None)
            | EvPublish r =>
                TSC.file_path r = Argparse.filepath args /\
                TSC.as_job r = supplied Argparse.d_as_job argv
            | _ => True
            end)
    (trace (snd (main argv w))).
Proof.
  intros P.
  destruct (parsed_supplied _ _ P) as (Ij & _).
  assert (Hsite : supplied Argparse.d_site argv = false -> Argparse.site args = None).
  { pose proof (parse_args_inv _ _ P) as ((_ & _ & _ & _ & _ & _ & I7 & _) & _).
    unfold supplied. intros Hs. rewrite Hs in I7.
    destruct (Argparse.site args); [discriminate I7 | reflexivity]. }
  rewrite <- Ij. rewrite (main_parsed _ _ _ P).
  destruct (conn_mismatch args) eqn:C.
  - rewrite (run_mismatch _ _ C). repeat constructor.
  - rewrite (run_checked _ _ C).
    run_cases w args; repeat constructor; cbn [TSC.site]; assumption.
Qed.

(** The sign-in request of the end-to-end run. *)
Lemma requests_carry_arguments_witness :
  Forall (fun ev =>
            match ev with
            | EvSignIn srv auth =>
                TSC.username auth = Some "alice" /\
                TSC.password auth = "pw" /\ TSC.site auth = None
            | _ => True
            end)
    (trace (snd (main argv_basic (world_ok "pw" "id")))).
Proof.
  assert (H := requests_carry_arguments argv_basic (world_ok "pw" "id") _ eq_refl).
  eapply Forall_impl; [|exact H].
  intros [] Hev; try exact I.
  destruct Hev as (_ & Hu & Hp & Hs & _).
  cbn in Hu, Hp, Hs. injection Hp as Hp. auto.
Defined.

(** X3. The steps of the script happen in the order of the source and each
    at most once: along every trace the events go strictly upward from the
    prompt to the logging configuration, the server handle, the sign-in,
    the publish call, the printed line and the sign-out. *)
Theorem steps_in_order argv w :
  StronglySorted lt (map rank (trace (snd (main argv w)))).
Proof.
  main_cases argv w; try (cbn; repeat constructor).
  run_cases w args; cbn [map rank]; repeat constructor; lia.
Qed.

(** X4. A line is printed only after the publish call returned: a run with
    any printed output returned normally from [main] (exit status 0), and
    the world answered its publish request with an identifier. *)
Theorem message_only_after_publish argv w :
  printed (snd (main argv w)) <> [] ->
  fst (main argv w) = Ok tt /\
  exit_status (fst (main argv w)) = 0%Z /\
  exists id, published_ids w (trace (snd (main argv w))) = [id].
Proof.
  main_cases argv w; unfold printed; cbn [fst snd trace usage_state flat_map app];
    try (intros H; exfalso; apply H; reflexivity).
  run_cases w args; unfold published_ids;
    cbn [flat_map app publish_requests]; intros H;
    try (exfalso; apply H; reflexivity);
    rewrite Hpub; (split; [reflexivity|]); (split; [reflexivity|]);
    eexists; reflexivity.
Qed.

(** The end-to-end run printed, and returned normally. *)
Lemma message_only_after_publish_witness :
  fst (main argv_basic (world_ok "pw" "lukedelaruelle")) = Ok tt.
Proof.
  apply (message_only_after_publish argv_basic (world_ok "pw" "lukedelaruelle")).
  vm_compute. discriminate.
Defined.

(** X5. The password typed at the prompt goes into the sign-in request and
    nowhere else: two runs on the same command line that differ only in the
    password typed, against a server that treats both passwords alike, end
    the same way and have the same trace once the password of the sign-in
    request is blanked - the same publish request, the same printed line. *)
Theorem password_only_in_sign_in argv w p1 p2 :
  (forall srv u s,
     sign_in_reply w srv {| TSC.username := u; TSC.password := p1; TSC.site := s |} =
     sign_in_reply w srv {| TSC.username := u; TSC.password := p2; TSC.site := s |}) ->
  fst (main argv (with_password w p1)) = fst (main argv (with_password w p2)) /\
  map forget_password (trace (snd (main argv (with_password w p1)))) =
  map forget_password (trace (snd (main argv (with_password w p2)))).
Proof.
  intros Hsame.
  destruct (Argparse.parse_args parser argv) as [args| |m] eqn:P.
  - rewrite !(main_parsed _ _ _ P).
    destruct (conn_mismatch args) eqn:C.
    + rewrite !(run_mismatch _ _ C). split; reflexivity.
    + rewrite !(run_checked _ _ C). run_norm. unfold with_password.
      cbn [getpass_reply server_reply sign_in_reply publish_reply].
      destruct (Argparse.logging_level args) as [name|]; run_norm;
        [|split; reflexivity].
      destruct (Logging.getattr (Py.upper name)) as [level|]; run_norm;
        [|split; reflexivity].
      case_server w; run_norm; [split; reflexivity|].
      rewrite (Hsame _ (Argparse.username args) (Argparse.site args)).
      case_sign_in w; run_norm; [split; reflexivity|].
      destruct (Argparse.as_job args); run_norm;
        case_publish w; run_norm; split; reflexivity.
  - rewrite !(main_help _ _ P). split; reflexivity.
  - rewrite !(main_usage _ _ _ P). split; reflexivity.
Qed.

(** Two passwords the server accepts alike. *)
Lemma password_only_in_sign_in_witness :
  map forget_password
    (trace (snd (main argv_basic (with_password (world_ok "pw" "id") "first")))) =
  map forget_password
    (trace (snd (main argv_basic (with_password (world_ok "pw" "id") "second")))).
Proof.
  apply (password_only_in_sign_in argv_basic (world_ok "pw" "id") "first" "second").
  intros srv u s. reflexivity.
Defined.

Lemma flag_value_rejected a flag v pre rest args :
  In a parser -> Argparse.action a <> Argparse.store ->
  In flag (Argparse.option_strings a) -> plain v = true ->
  Argparse.parse_args parser (pre ++ flag :: v :: rest) <> Argparse.Parsed args.
Proof.
  intros Ha Hflag Hs Hv H.
  destruct (declared_option_parsed a flag Ha Hs) as [N P].
  destruct (plain_is_argument parser v Hv) as [Nv Pv].
  destruct (in_dec string_dec "--" pre) as [Hin|Hno].
  { eapply dash_rejected; [|exact H]. apply in_or_app. left. exact Hin. }
  unfold Argparse.parse_args, Argparse._parse_known_args in H.
  rewrite arg_strings_pattern_app_exact in H by exact Hno.
  destruct (Argparse.arg_strings_pattern parser pre) as [m|p1] eqn:P1; [discriminate|].
  apply arg_strings_pattern_length in P1.
  rewrite !arg_strings_pattern_cons in H.
  destruct (String.eqb_spec flag "--"); [contradiction|].
  destruct (String.eqb_spec v "--"); [contradiction|].
  rewrite P, Pv in H.
  destruct (Argparse.arg_strings_pattern parser rest) as [m|q]; [discriminate|].
  rewrite combine_app_same in H by exact P1. cbn [combine] in H.
  rewrite (consume_app parser (length (combine pre p1))) in H by (auto; exact I).
  destruct (Argparse.consume parser (combine pre p1) _ _ _)
    as [[[ns1 seen1] ex1]| |m]; try discriminate.
  cbn [Argparse.consume] in H.
  assert (Hcount : Argparse.arg_count a = 0%nat).
  { unfold Argparse.arg_count. destruct (Argparse.action a); [contradiction| |]; reflexivity. }
  rewrite Hcount in H.
  destruct (Argparse.take_actions _ _) as [[ns2 seen2]| |m]; try discriminate.
  cbn [Argparse.consume] in H.
  destruct (Argparse.consume parser _ _ _ _) as [[[ns3 seen3] ex3]| |m] eqn:C;
    try discriminate.
  apply consume_extras_grow with (n := length (combine rest q)) in C; [|apply le_n].
  destruct C as [more ->].
  destruct (Argparse.required_actions parser _); [|discriminate H].
  destruct ex1; discriminate H.
Qed.

(** X11. A flag takes no value: a command line in which an option string of
    [--as-job], [--conn-embed], [--conn-oauth] (or of the help option) is
    followed by a string that does not start with [-] is refused by the
    parser, before the prompt. *)
Theorem flag_takes_no_value a flag v pre rest w :
  In a parser -> Argparse.action a <> Argparse.store ->
  In flag (Argparse.option_strings a) -> plain v = true ->
  (exists m, main (pre ++ flag :: v :: rest) w = (SystemExit 2, usage_state m)) \/
  main (pre ++ flag :: v :: rest) w
  = (SystemExit 0, {| trace := [EvHelp]; signed_in := false;
                      root_level := Logging.WARNING |}).
Proof.
  intros Ha Hflag Hs Hv. apply refused_run. intros args.
  apply flag_value_rejected with (a := a); assumption.
Qed.

(** [--as-job true] is refused. *)
Lemma flag_takes_no_value_witness :
  (exists m, main (argv_basic ++ "--as-job" :: "true" :: []) (world_ok "pw" "id")
             = (SystemExit 2, usage_state m)) \/
  main (argv_basic ++ "--as-job" :: "true" :: []) (world_ok "pw" "id")
  = (SystemExit 0, {| trace := [EvHelp]; signed_in := false;
                      root_level := Logging.WARNING |}).
Proof.
  apply (flag_takes_no_value
           (add_argument ["--as-job"; "-a"] Argparse.d_as_job Argparse.store_true
              false None None)).
  - unfold parser. simpl. auto 10.
  - discriminate.
  - simpl. auto.
  - reflexivity.
Defined.


